(** * Guild roster synchronisation: [app/services/discord.server.ts]

    A shallow embedding of the three routines of the service
    ([fetchGuildMembersChunk], [fetchAllGuildMembers], [isMemberOfGuild])
    together with the part of the JavaScript runtime they lean on: JSON
    values, property reads, truthiness, the relational test [x > 0], array
    spread, [JSON.stringify] / [JSON.parse] on texts, [fetch], the key-value
    store client and the console.

    Conventions of the model.
    - A JSON number is an integer ([Z]); the routines never compute with the
      numeric fields of a member record.  A literal with a fraction or an
      exponent lies outside the modelled texts: [JSON_parse] does not read
      it, and [JSON_wellformed] tells such a text from a malformed one.
    - A string is a [string] of 8-bit characters, each standing for one code
      unit; an escape [\uXXXX] of a code unit above 255 lies outside the
      modelled texts.
    - An object is the list of its members in text order; a key that occurs
      twice reads as its last occurrence, which is how [JSON.parse] resolves
      it.  The values that the runtime holds and writes back to the letter
      are the [canonical] ones: integers that a double holds exactly,
      objects without a repeated key or a key made of digits.
    - A value is converted to a string or to a number from its shape alone.
      An object with a [toString] member of its own, on which the
      conversion throws, lies outside the model: the properties that hang
      on a conversion are stated of primitive values ([plain_cursor],
      [primitive]).
    - [await] is sequencing: the routines are traced one call at a time. *)

From Stdlib Require Import ZArith List Ascii String Bool Lia.
From Stdlib Require Import Decimal DecimalString DecimalZ FinFun.
From stdpp Require Import gmap strings list.

Local Open Scope Z_scope.
Local Open Scope string_scope.
Local Open Scope list_scope.

(** ** JSON values and JavaScript values *)

Unset Elimination Schemes.
Inductive json : Type :=
| JNull
| JBool (b : bool)
| JNum (n : Z)
| JStr (s : string)
| JArr (items : list json)
| JObj (members : list (string * json)).
Set Elimination Schemes.

(** Structural induction through the elements of arrays and the members of
    objects. *)
Section JsonInduction.

Variable P : json -> Prop.
Hypothesis P_null : P JNull.
Hypothesis P_bool : forall b, P (JBool b).
Hypothesis P_num : forall n, P (JNum n).
Hypothesis P_str : forall s, P (JStr s).
Hypothesis P_arr : forall items, Forall P items -> P (JArr items).
Hypothesis P_obj : forall members, Forall (fun kv => P (snd kv)) members -> P (JObj members).

Fixpoint json_ind (j : json) : P j :=
  match j with
  | JNull => P_null
  | JBool b => P_bool b
  | JNum n => P_num n
  | JStr s => P_str s
  | JArr items =>
      P_arr items
        ((fix all (l : list json) : Forall P l :=
            match l with
            | [] => @List.Forall_nil _ P
            | x :: l' => @List.Forall_cons _ P x l' (json_ind x) (all l')
            end) items)
  | JObj members =>
      P_obj members
        ((fix all (l : list (string * json)) : Forall (fun kv => P (snd kv)) l :=
            match l with
            | [] => @List.Forall_nil _ (fun kv => P (snd kv))
            | kv :: l' => @List.Forall_cons _ (fun kv => P (snd kv)) kv l' (json_ind (snd kv)) (all l')
            end) members)
  end.

End JsonInduction.

(** What a variable of type [any] can hold here: [undefined] or a JSON value. *)
Inductive jsval : Type :=
| Undefined
| Val (j : json).

Coercion Val : json >-> jsval.

Inductive error : Type :=
| TypeError      (* property read of null/undefined, call of a non-function,
                    spread of a non-iterable *)
| SyntaxError    (* JSON.parse / Response.json on a malformed text *)
| NetworkError.  (* a rejected fetch *)

(** The completion of a computation.  [OutOfFuel] is not a JavaScript
    outcome: it marks a trace cut by the step bound of the model. *)
Inductive completion (A : Type) : Type :=
| Normal (a : A)
| Throw (e : error)
| OutOfFuel.

Arguments Normal {A} a.
Arguments Throw {A} e.
Arguments OutOfFuel {A}.

(** The property names the source reads. *)
Inductive prop : Type := p_length | p_user | p_id.

Definition prop_name (p : prop) : string :=
  match p with
  | p_length => "length"
  | p_user => "user"
  | p_id => "id"
  end.

(** Own-property lookup on the member list of an object: the last
    occurrence of the key wins. *)
Fixpoint own_property (key : string) (members : list (string * json)) : jsval :=
  match members with
  | [] => Undefined
  | (k, v) :: rest =>
      match own_property key rest with
      | Undefined => if String.eqb k key then Val v else Undefined
      | found => found
      end
  end.

(** [v.p] for [p] one of [length], [user], [id]. *)
Definition get (v : jsval) (p : prop) : completion jsval :=
  match v with
  | Undefined => Throw TypeError
  | Val JNull => Throw TypeError
  | Val (JBool _) => Normal Undefined
  | Val (JNum _) => Normal Undefined
  | Val (JStr s) =>
      match p with
      | p_length => Normal (Val (JNum (Z.of_nat (String.length s))))
      | _ => Normal Undefined
      end
  | Val (JArr items) =>
      match p with
      | p_length => Normal (Val (JNum (Z.of_nat (List.length items))))
      | _ => Normal Undefined
      end
  | Val (JObj members) => Normal (own_property (prop_name p) members)
  end.

(** ToBoolean. *)
Definition truthy (v : jsval) : bool :=
  match v with
  | Undefined => false
  | Val JNull => false
  | Val (JBool b) => b
  | Val (JNum n) => negb (Z.eqb n 0)
  | Val (JStr s) => negb (String.eqb s "")
  | Val (JArr _) => true
  | Val (JObj _) => true
  end.

(** Number::toString on the integers. *)
Definition Number_toString (n : Z) : string :=
  NilZero.string_of_int (Z.to_int n).

(** Array.prototype.join with the separator [","]. *)
Fixpoint join_comma (parts : list string) : string :=
  match parts with
  | [] => ""
  | [s] => s
  | s :: rest => s ++ "," ++ join_comma rest
  end.

(** ToString.  An element of an array that is [null] prints as the empty
    string inside the join.  An object prints through the method it
    inherits; one with a [toString] member of its own has no such text (the
    conversion throws) and is outside the model. *)
Fixpoint ToString_json (j : json) : string :=
  match j with
  | JNull => "null"
  | JBool true => "true"
  | JBool false => "false"
  | JNum n => Number_toString n
  | JStr s => s
  | JArr items =>
      join_comma
        (List.map (fun e => match e with JNull => "" | _ => ToString_json e end) items)
  | JObj _ => "[object Object]"
  end.

Definition ToString (v : jsval) : string :=
  match v with
  | Undefined => "undefined"
  | Val j => ToString_json j
  end.

(** Strict equality [a === b] against a string [b]. *)
Definition strict_eq_string (a : jsval) (b : string) : bool :=
  match a with
  | Val (JStr s) => String.eqb s b
  | _ => false
  end.

(** StringToNumber, as far as the source needs it: whether the numeric value
    of a string is a number above zero.  It is an interface of the runtime;
    the routines reach it only when a response body is an object whose
    [length] member is a string or an array. *)
Class StringToNumber := string_above_zero : string -> bool.

(** [v > 0]: ToPrimitive, then ToNumber, then the comparison; NaN compares
    false.  On the primitive values this is the comparison of the runtime;
    an object or an array converts through [ToString], with the limits
    stated there. *)
Definition above_zero `{StringToNumber} (v : jsval) : bool :=
  match v with
  | Undefined => false
  | Val JNull => false
  | Val (JBool b) => b
  | Val (JNum n) => Z.ltb 0 n
  | Val (JStr s) => string_above_zero s
  | Val (JArr items) => string_above_zero (ToString_json (JArr items))
  | Val (JObj _) => false
  end.

(** The elements produced by spreading a value into an array literal. *)
Definition spread (v : jsval) : completion (list json) :=
  match v with
  | Val (JArr items) => Normal items
  | Val (JStr s) =>
      Normal (List.map (fun c => JStr (String c "")) (list_ascii_of_string s))
  | _ => Throw TypeError
  end.

(** [a[a.length - 1]]. *)
Definition last_item (a : list json) : jsval :=
  match last a with
  | Some x => Val x
  | None => Undefined
  end.

(** ** JSON texts: [JSON.stringify] and [JSON.parse] *)

Definition text := list ascii.

Definition dquote : ascii := Eval cbv in ascii_of_N 34.

Definition chars (s : string) : text := list_ascii_of_string s.

Definition hex_digit (n : N) : ascii :=
  match n with
  | 0%N => "0" | 1%N => "1" | 2%N => "2" | 3%N => "3"
  | 4%N => "4" | 5%N => "5" | 6%N => "6" | 7%N => "7"
  | 8%N => "8" | 9%N => "9" | 10%N => "a" | 11%N => "b"
  | 12%N => "c" | 13%N => "d" | 14%N => "e" | _ => "f"
  end%char.

(** QuoteJSONString, one code unit: the two-character escapes, [\u00XX] for
    the other control characters, the character itself otherwise. *)
Definition escape (c : ascii) : text :=
  let n := N_of_ascii c in
  if N.eqb n 8 then chars "\b"
  else if N.eqb n 9 then chars "\t"
  else if N.eqb n 10 then chars "\n"
  else if N.eqb n 12 then chars "\f"
  else if N.eqb n 13 then chars "\r"
  else if N.eqb n 34 then ["\"%char; dquote]
  else if N.eqb n 92 then ["\"; "\"]%char
  else if N.ltb n 32 then
    chars "\u00" ++ [hex_digit (N.div n 16); hex_digit (N.modulo n 16)]
  else [c].

Fixpoint quote_tail (s : string) : text :=
  match s with
  | EmptyString => [dquote]
  | String c s' => escape c ++ quote_tail s'
  end.

Definition quote (s : string) : text := dquote :: quote_tail s.

Fixpoint comma_separated (parts : list text) : text :=
  match parts with
  | [] => []
  | [p] => p
  | p :: rest => p ++ ","%char :: comma_separated rest
  end.

(** The text [JSON.stringify] writes for a value: no white space, members
    and elements in order. *)
Fixpoint stringify (j : json) : text :=
  match j with
  | JNull => chars "null"
  | JBool true => chars "true"
  | JBool false => chars "false"
  | JNum n => chars (Number_toString n)
  | JStr s => quote s
  | JArr items =>
      "["%char :: comma_separated (List.map stringify items) ++ ["]"%char]
  | JObj members =>
      "{"%char
        :: comma_separated
             (List.map (fun kv => quote (fst kv) ++ ":"%char :: stringify (snd kv))
                members)
        ++ ["}"%char]
  end.

Definition JSON_stringify (j : json) : string :=
  string_of_list_ascii (stringify j).

Definition is_ws (c : ascii) : bool :=
  let n := N_of_ascii c in
  N.eqb n 32 || N.eqb n 9 || N.eqb n 10 || N.eqb n 13.

Fixpoint skip_ws (t : text) : text :=
  match t with
  | c :: r => if is_ws c then skip_ws r else t
  | [] => []
  end.

Definition is_digit (c : ascii) : bool :=
  let n := N_of_ascii c in N.leb 48 n && N.leb n 57.

Definition hex_value (c : ascii) : option N :=
  let n := N_of_ascii c in
  if N.leb 48 n && N.leb n 57 then Some (n - 48)%N
  else if N.leb 97 n && N.leb n 102 then Some (n - 87)%N
  else if N.leb 65 n && N.leb n 70 then Some (n - 55)%N
  else None.

(** The code unit written [\u h1 h2 h3 h4], when it is below 256. *)
Definition unicode_escape (h1 h2 h3 h4 : ascii) : option ascii :=
  match hex_value h1, hex_value h2, hex_value h3, hex_value h4 with
  | Some 0%N, Some 0%N, Some a, Some b => Some (ascii_of_N (16 * a + b))
  | _, _, _, _ => None
  end.

Definition simple_escape (e : ascii) : option ascii :=
  let n := N_of_ascii e in
  if N.eqb n 34 then Some dquote
  else if N.eqb n 92 then Some "\"%char
  else if N.eqb n 47 then Some "/"%char
  else if N.eqb n 98 then Some (ascii_of_N 8)
  else if N.eqb n 102 then Some (ascii_of_N 12)
  else if N.eqb n 110 then Some (ascii_of_N 10)
  else if N.eqb n 114 then Some (ascii_of_N 13)
  else if N.eqb n 116 then Some (ascii_of_N 9)
  else None.

Definition prepend (c : ascii) (r : option (string * text)) : option (string * text) :=
  match r with
  | Some (s, t) => Some (String c s, t)
  | None => None
  end.

(** The characters of a string literal after its opening quote, up to and
    including the closing quote. *)
Fixpoint parse_chars (t : text) : option (string * text) :=
  match t with
  | [] => None
  | c :: r =>
      if Ascii.eqb c dquote then Some (EmptyString, r)
      else if Ascii.eqb c "\" then
        match r with
        | [] => None
        | e :: r1 =>
            if Ascii.eqb e "u" then
              match r1 with
              | h1 :: h2 :: h3 :: h4 :: r2 =>
                  match unicode_escape h1 h2 h3 h4 with
                  | Some c' => prepend c' (parse_chars r2)
                  | None => None
                  end
              | _ => None
              end
            else
              match simple_escape e with
              | Some c' => prepend c' (parse_chars r1)
              | None => None
              end
        end
      else if N.ltb (N_of_ascii c) 32 then None
      else prepend c (parse_chars r)
  end.

Fixpoint span_digits (t : text) : text * text :=
  match t with
  | c :: r =>
      if is_digit c then let (d, rest) := span_digits r in (c :: d, rest)
      else ([], t)
  | [] => ([], [])
  end.

Definition span_number (t : text) : text * text :=
  match t with
  | c :: r =>
      if Ascii.eqb c "-" then let (d, rest) := span_digits r in (c :: d, rest)
      else span_digits t
  | [] => ([], [])
  end.

(** An integer literal: an optional minus sign and digits without a leading
    zero (the literal is the one [Number_toString] writes for its value, or
    [-0]). *)
Definition parse_number (t : text) : option (Z * text) :=
  let (lit, rest) := span_number t in
  let s := string_of_list_ascii lit in
  match NilZero.int_of_string s with
  | Some d =>
      let n := Z.of_int d in
      if String.eqb (Number_toString n) s || String.eqb s "-0"
      then Some (n, rest) else None
  | None => None
  end.

Fixpoint strip_prefix (p t : text) : option text :=
  match p with
  | [] => Some t
  | c :: p' =>
      match t with
      | c' :: t' => if Ascii.eqb c c' then strip_prefix p' t' else None
      | [] => None
      end
  end.

Definition literal (word : string) (v : json) (t : text) : option (json * text) :=
  match strip_prefix (chars word) t with
  | Some r => Some (v, r)
  | None => None
  end.

(** Recursive descent over the text.  The step bound is spent once per value
    and once per element or member; [JSON_parse] supplies more than the
    length of the text. *)
Fixpoint parse_value (fuel : nat) (t : text) : option (json * text) :=
  match fuel with
  | O => None
  | S fuel' =>
      match skip_ws t with
      | [] => None
      | c :: r =>
          if is_digit c || Ascii.eqb c "-" then
            match parse_number (c :: r) with
            | Some (n, r') => Some (JNum n, r')
            | None => None
            end
          else if Ascii.eqb c dquote then
            match parse_chars r with
            | Some (s, r') => Some (JStr s, r')
            | None => None
            end
          else if Ascii.eqb c "[" then
            match skip_ws r with
            | c' :: r' =>
                if Ascii.eqb c' "]" then Some (JArr [], r')
                else
                  match parse_elements fuel' r with
                  | Some (items, r'') => Some (JArr items, r'')
                  | None => None
                  end
            | [] => None
            end
          else if Ascii.eqb c "{" then
            match skip_ws r with
            | c' :: r' =>
                if Ascii.eqb c' "}" then Some (JObj [], r')
                else
                  match parse_members fuel' r with
                  | Some (members, r'') => Some (JObj members, r'')
                  | None => None
                  end
            | [] => None
            end
          else if Ascii.eqb c "n" then literal "null" JNull (c :: r)
          else if Ascii.eqb c "t" then literal "true" (JBool true) (c :: r)
          else if Ascii.eqb c "f" then literal "false" (JBool false) (c :: r)
          else None
      end
  end
with parse_elements (fuel : nat) (t : text) : option (list json * text) :=
  match fuel with
  | O => None
  | S fuel' =>
      match parse_value fuel' t with
      | Some (v, r) =>
          match skip_ws r with
          | c :: r' =>
              if Ascii.eqb c "," then
                match parse_elements fuel' r' with
                | Some (vs, r'') => Some (v :: vs, r'')
                | None => None
                end
              else if Ascii.eqb c "]" then Some ([v], r')
              else None
          | [] => None
          end
      | None => None
      end
  end
with parse_members (fuel : nat) (t : text) : option (list (string * json) * text) :=
  match fuel with
  | O => None
  | S fuel' =>
      match skip_ws t with
      | q :: r0 =>
          if Ascii.eqb q dquote then
            match parse_chars r0 with
            | Some (k, r1) =>
                match skip_ws r1 with
                | colon :: r2 =>
                    if Ascii.eqb colon ":" then
                      match parse_value fuel' r2 with
                      | Some (v, r3) =>
                          match skip_ws r3 with
                          | c :: r4 =>
                              if Ascii.eqb c "," then
                                match parse_members fuel' r4 with
                                | Some (kvs, r5) => Some ((k, v) :: kvs, r5)
                                | None => None
                                end
                              else if Ascii.eqb c "}" then Some ([(k, v)], r4)
                              else None
                          | [] => None
                          end
                      | None => None
                      end
                    else None
                | [] => None
                end
            | None => None
            end
          else None
      | [] => None
      end
  end.

(** [JSON.parse]: one value, white space around it, nothing else.  [None]
    stands for the SyntaxError; it is also the answer on a well-formed text
    outside the modelled ones. *)
Definition JSON_parse (s : string) : option json :=
  let t := chars s in
  match parse_value (S (List.length t)) t with
  | Some (v, r) =>
      match skip_ws r with
      | [] => Some v
      | _ :: _ => None
      end
  | None => None
  end.

(** A text that does not go on with a digit: what may follow a number
    literal without changing it. *)
Definition no_digit_head (r : text) : Prop :=
  match r with
  | c :: _ => is_digit c = false
  | [] => True
  end.

(** [v] is read back from its own text, whatever follows. *)
Definition reads_back (v : json) : Prop :=
  forall fuel r,
    (List.length (stringify v) <= fuel)%nat -> no_digit_head r ->
    parse_value fuel (stringify v ++ r) = Some (v, r).

(** ** The world outside the routines *)

(** [process.env]: an unset variable reads [undefined]. *)
Record env : Type := {
  DISCORD_BOT_TOKEN : option string;
  DISCORD_GUILD_ID : option string
}.

Record request : Type := {
  url : string;
  Authorization : string
}.

Record Response : Type := {
  status : Z;
  body : string
}.

(** The upstream answers a request knowing the requests sent before it;
    [None] is a rejected [fetch] (no response at all). *)
Definition server : Type := list request -> request -> option Response.

Record world : Type := {
  process_env : env;
  upstream : server;
  sent : list request;              (* the requests issued so far, oldest first *)
  redis : gmap string string;       (* the key-value store *)
  console : list (list jsval)       (* the lines written by console.log *)
}.

(** ** Computations: state passing with exceptions *)

Definition js (A : Type) : Type := world -> completion A * world.

Definition ret {A : Type} (a : A) : js A := fun w => (Normal a, w).

Definition lift {A : Type} (c : completion A) : js A := fun w => (c, w).

Definition bind {A B : Type} (c : js A) (k : A -> js B) : js B :=
  fun w =>
    match c w with
    | (Normal a, w') => k a w'
    | (Throw e, w') => (Throw e, w')
    | (OutOfFuel, w') => (OutOfFuel, w')
    end.

Notation "x <- c ;; k" := (bind c (fun x => k))
  (at level 20, c at level 99, k at level 200, only parsing).

Definition and_then {A B : Type} (c : completion A) (k : A -> completion B) : completion B :=
  match c with
  | Normal a => k a
  | Throw e => Throw e
  | OutOfFuel => OutOfFuel
  end.

Definition log_request (rq : request) (w : world) : world :=
  {| process_env := process_env w; upstream := upstream w;
     sent := sent w ++ [rq]; redis := redis w; console := console w |}.

Definition log_console (args : list jsval) (w : world) : world :=
  {| process_env := process_env w; upstream := upstream w; sent := sent w;
     redis := redis w; console := console w ++ [args] |}.

(** [fetch(url, { headers })]: the request is recorded, the upstream answers
    or the promise rejects. *)
Definition fetch (rq : request) : js Response :=
  fun w =>
    match upstream w (sent w) rq with
    | Some r => (Normal r, log_request rq w)
    | None => (Throw NetworkError, log_request rq w)
    end.

(** [response.json()]: the body is parsed whatever the status. *)
Definition Response_json (r : Response) : js jsval :=
  lift (match JSON_parse (body r) with
        | Some v => Normal (Val v)
        | None => Throw SyntaxError
        end).

(** [redisClient.get(key)]: the stored string, or [null] ([None]). *)
Definition redisClient_get (key : string) : js (option string) :=
  fun w => (Normal (redis w !! key), w).

Definition console_log (args : list jsval) : js unit :=
  fun w => (Normal tt, log_console args w).

(** A template literal hole filled from [process.env]. *)
Definition env_text (v : option string) : string :=
  match v with
  | Some s => ToString (Val (JStr s))
  | None => ToString Undefined
  end.

(** [Array.prototype.find] over the elements, in order, stopping at the
    first hit; the callback may throw. *)
Fixpoint find_first (pred : json -> completion bool) (items : list json) : completion jsval :=
  match items with
  | [] => Normal Undefined
  | x :: rest =>
      match pred x with
      | Normal true => Normal (Val x)
      | Normal false => find_first pred rest
      | Throw e => Throw e
      | OutOfFuel => OutOfFuel
      end
  end.

(** [v.find(callback)]: only an array has the method; on [null] the read
    fails and on any other JSON value the call does. *)
Definition Array_find (v : jsval) (pred : json -> completion bool) : completion jsval :=
  match v with
  | Val (JArr items) => find_first pred items
  | _ => Throw TypeError
  end.

(** ** The routines of [discord.server.ts] *)

(** [fetchGuildMembersChunk(lastUserId?)], lines 3-18: one GET of up to 1000
    members; the cursor goes into the query only when it is truthy. *)
Definition fetchGuildMembersChunk (lastUserId : jsval) : js Response :=
  fun w =>
    let discordBotToken := DISCORD_BOT_TOKEN (process_env w) in
    let authHeaders := ("Bot " ++ env_text discordBotToken)%string in
    let snowflakeQuery :=
      (if truthy lastUserId then "&after=" ++ ToString lastUserId else "")%string in
    fetch
      {| url := ("https://discordapp.com/api/guilds/"
                 ++ env_text (DISCORD_GUILD_ID (process_env w))
                 ++ "/members?limit=1000" ++ snowflakeQuery)%string;
         Authorization := authHeaders |}
      w.

Section Routines.

Context `{StringToNumber}.

(** [fetchAllGuildMembers(previousMembers, lastUserId)], lines 20-42.  The
    test [newMembers.length > 0] is evaluated twice, as in the source.  The
    recursion is bounded by [fuel], one unit per page request; running out
    completes with [OutOfFuel]. *)
Fixpoint fetchAllGuildMembers (fuel : nat) (previousMembers : list json)
    (lastUserId : jsval) : js string :=
  match fuel with
  | O => lift OutOfFuel
  | S fuel' =>
      response <- fetchGuildMembersChunk lastUserId ;;
      let clonedResponse := response in
      newMembers <- Response_json clonedResponse ;;
      length1 <- lift (get newMembers p_length) ;;
      members <-
        (if above_zero length1
         then (fresh <- lift (spread newMembers) ;; ret (previousMembers ++ fresh))
         else ret previousMembers) ;;
      let lastItem := last_item members in
      length2 <- lift (get newMembers p_length) ;;
      if above_zero length2
      then
        user <- lift (get lastItem p_user) ;;
        id <- lift (get user p_id) ;;
        fetchAllGuildMembers fuel' members id
      else ret (JSON_stringify (JArr members))
  end.

(** What one call does after its page request, given the parsed body. *)
Definition continue_with (fuel : nat) (previousMembers : list json) (newMembers : json)
    (w1 : world) : completion string * world :=
  match get (Val newMembers) p_length with
  | Normal len =>
      if above_zero len then
        match spread (Val newMembers) with
        | Normal fresh =>
            match and_then (get (last_item (previousMembers ++ fresh)) p_user)
                    (fun user => get user p_id) with
            | Normal id => fetchAllGuildMembers fuel (previousMembers ++ fresh) id w1
            | Throw e => (Throw e, w1)
            | OutOfFuel => (OutOfFuel, w1)
            end
        | Throw e => (Throw e, w1)
        | OutOfFuel => (OutOfFuel, w1)
        end
      else (Normal (JSON_stringify (JArr previousMembers)), w1)
  | Throw e => (Throw e, w1)
  | OutOfFuel => (OutOfFuel, w1)
  end.

End Routines.

(** [isMemberOfGuild(id)], lines 44-55.  [a && b] is [a] when [a] is falsy:
    [null] for a missing key, the empty string for an empty value. *)
Definition isMemberOfGuild (id : string) : js bool :=
  discordGuildMembers <- redisClient_get "discordGuildMembers" ;;
  parsedResult <-
    (match discordGuildMembers with
     | None => ret (Val JNull)
     | Some s =>
         if truthy (Val (JStr s))
         then lift (match JSON_parse s with
                    | Some v => Normal (Val v)
                    | None => Throw SyntaxError
                    end)
         else ret (Val (JStr s))
     end) ;;
  _ <- console_log
         [parsedResult;
          match discordGuildMembers with
          | Some s => Val (JStr s)
          | None => Val JNull
          end] ;;
  matchingUser <-
    lift (Array_find parsedResult
            (fun resultItem =>
               and_then (get (Val resultItem) p_user) (fun user =>
               and_then (get user p_id) (fun uid =>
               Normal (strict_eq_string uid id))))) ;;
  ret (truthy matchingUser).

(** ** A paging upstream

    The upstream the pagination is written against: the roster is a sequence
    of member records; a request without cursor is answered by the first
    page, a request [after=c] by the page that follows the member whose
    nested user identifier is [c]; a page holds the next [pageSize] members,
    or all that remain when fewer do. *)

(** [m.user.id] when it is a string. *)
Definition user_id (m : json) : option string :=
  match and_then (get (Val m) p_user) (fun user => get user p_id) with
  | Normal (Val (JStr s)) => Some s
  | _ => None
  end.

Fixpoint members_after (cursor : string) (roster : list json) : list json :=
  match roster with
  | [] => []
  | m :: rest =>
      match user_id m with
      | Some s => if String.eqb s cursor then rest else members_after cursor rest
      | None => members_after cursor rest
      end
  end.

Definition members_url (guild : string) : string :=
  ("https://discordapp.com/api/guilds/" ++ guild ++ "/members?limit=1000")%string.

Definition page_response (page : list json) : Response :=
  {| status := 200; body := JSON_stringify (JArr page) |}.

Definition not_found : Response :=
  {| status := 404;
     body := JSON_stringify (JObj [("message", JStr "404: Not Found"); ("code", JNum 0)]) |}.

Definition paging_upstream (guild : string) (pageSize : nat) (roster : list json) : server :=
  fun _ rq =>
    if String.eqb (url rq) (members_url guild)
    then Some (page_response (take pageSize roster))
    else
      match strip_prefix (chars (members_url guild ++ "&after=")%string) (chars (url rq)) with
      | Some c =>
          Some (page_response
                  (take pageSize (members_after (string_of_list_ascii c) roster)))
      | None => Some not_found
      end.

(** A member record with the given user identifier and no other field. *)
Definition member (id : string) : json :=
  JObj [("user", JObj [("id", JStr id)])].

(** The identifiers ["1"], ["2"], ... ["n"], as a roster. *)
Definition numbered_roster (n : nat) : list json :=
  List.map (fun k => member (Number_toString (Z.of_nat k))) (seq 1 n).

(** A world in which nothing has happened yet. *)
Definition initial_world (e : env) (u : server) : world :=
  {| process_env := e; upstream := u; sent := []; redis := ∅; console := [] |}.

(** The write of the external collaborator: the snapshot is stored under the
    key the lookup reads. *)
Definition persist (snapshot : string) (w : world) : world :=
  {| process_env := process_env w; upstream := upstream w; sent := sent w;
     redis := <["discordGuildMembers" := snapshot]> (redis w);
     console := console w |}.

(** The request [fetchGuildMembersChunk] issues for a cursor. *)
Definition chunk_request (e : env) (lastUserId : jsval) : request :=
  {| url := (members_url (env_text (DISCORD_GUILD_ID e))
             ++ (if truthy lastUserId then "&after=" ++ ToString lastUserId else ""))%string;
     Authorization := ("Bot " ++ env_text (DISCORD_BOT_TOKEN e))%string |}.

(** ** Concrete surroundings for the examples *)

(** One conversion for the [StringToNumber] interface, used to run the
    routines on concrete inputs: it knows the decimal integer literals and
    nothing else.  No example below converts a string. *)
#[export] Instance integer_literals : StringToNumber :=
  fun s =>
    match NilZero.int_of_string s with
    | Some d => Z.ltb 0 (Z.of_int d)
    | None => false
    end.

(** An upstream that answers the n-th request with the n-th response of a
    script, whatever is asked, and rejects once the script is over. *)
Definition scripted (responses : list Response) : server :=
  fun history _ => responses !! List.length history.

Definition example_env : env :=
  {| DISCORD_BOT_TOKEN := Some "token"; DISCORD_GUILD_ID := Some "G" |}.

(** The body Discord sends with status 429. *)
Definition rate_limited : Response :=
  {| status := 429;
     body := JSON_stringify
               (JObj [("message", JStr "You are being rate limited.");
                      ("retry_after", JNum 64);
                      ("global", JBool false)]) |}.

(** The GuildMember records: [m.user.id] is a string. *)
Definition GuildMember (m : json) : Prop := user_id m <> None.

(** [m.user] is an object (so [m.user.id] can be read). *)
Definition has_user (m : json) : Prop :=
  exists fields, get (Val m) p_user = Normal (Val (JObj fields)).

Section Exhaustion.

Context `{StringToNumber}.

(** A parsed body that the loop takes for the end of the roster: its
    [length] can be read and is not above zero. *)
Definition reads_as_exhausted (v : json) : bool :=
  match get (Val v) p_length with
  | Normal len => negb (above_zero len)
  | _ => false
  end.

End Exhaustion.

(** Whether the record carries the identifier as its [user.id]. *)
Definition has_id (id : string) (m : json) : bool :=
  match user_id m with
  | Some s => String.eqb s id
  | None => false
  end.

(** ** The roster as the upstream pages it *)

(** Rounded-up quotient. *)
Definition ceil_div (a b : nat) : nat := ((a + b - 1) / b)%nat.

(** A roster of snowflakes: every record has a string [user.id], none is
    empty and no two are equal. *)
Definition snowflake_roster (roster : list json) : Prop :=
  NoDup (List.map user_id roster)
  /\ Forall (fun m => exists s, user_id m = Some s /\ s <> ""%string) roster.

(** The cursor that goes with the members fetched so far: none before the
    first page, afterwards the identifier of the last member fetched. *)
Definition cursor_of (fetched : list json) (cursor : jsval) : Prop :=
  match last fetched with
  | None => cursor = Undefined
  | Some m => exists s, user_id m = Some s /\ cursor = Val (JStr s)
  end.

Definition log_requests (rqs : list request) (w : world) : world :=
  {| process_env := process_env w; upstream := upstream w;
     sent := sent w ++ rqs; redis := redis w; console := console w |}.

(** The cursor read off the end of a page of records. *)
Definition end_cursor (page : list json) : jsval :=
  match last page with
  | Some m =>
      match user_id m with
      | Some s => Val (JStr s)
      | None => Undefined
      end
  | None => Undefined
  end.

(** The cursors after each of the next [k] pages of the remaining members. *)
Fixpoint page_cursors (k pageSize : nat) (remaining : list json) : list jsval :=
  match k with
  | O => []
  | S k' =>
      end_cursor (take pageSize remaining)
        :: page_cursors k' pageSize (drop pageSize remaining)
  end.

(** The scenario of the specification: 2500 members behind pages of 1000. *)
Definition guild_2500 : world :=
  initial_world example_env (paging_upstream "G" 1000 (numbered_roster 2500)).

(** An upstream whose second answer is the rate-limit payload. *)
Definition throttled_world : world :=
  initial_world example_env
    (scripted [page_response [member "1"; member "2"]; rate_limited]).

(** An upstream whose second answer has the body [null]. *)
Definition null_world : world :=
  initial_world example_env
    (scripted [page_response [member "1"; member "2"];
               {| status := 200; body := "null" |}]).

(** An upstream whose second answer is not JSON at all. *)
Definition broken_world : world :=
  initial_world example_env
    (scripted [page_response [member "1"];
               {| status := 502; body := "<html>Bad Gateway</html>" |}]).

(** A store that holds the snapshot of the one member [U1]. *)
Definition U1_world : world :=
  persist (JSON_stringify (JArr [member "U1"]))
    (initial_world example_env (scripted [])).

(** ** The whole JSON grammar *)

(** [JSON_parse] gives a value to the texts of the model.  A text it does not
    read is either malformed or a well-formed text outside the model (a
    number with a fraction or an exponent, an escape above 255).  The
    recogniser below follows the whole grammar and tells the two apart: the
    texts on which [JSON.parse] throws are the ones it refuses. *)

Definition is_hex (c : ascii) : bool :=
  match hex_value c with
  | Some _ => true
  | None => false
  end.

(** The characters of a string literal after its opening quote: any
    [\uXXXX] is an escape. *)
Fixpoint check_chars (t : text) : option text :=
  match t with
  | [] => None
  | c :: r =>
      if Ascii.eqb c dquote then Some r
      else if Ascii.eqb c "\" then
        match r with
        | [] => None
        | e :: r1 =>
            if Ascii.eqb e "u" then
              match r1 with
              | h1 :: h2 :: h3 :: h4 :: r2 =>
                  if is_hex h1 && is_hex h2 && is_hex h3 && is_hex h4
                  then check_chars r2 else None
              | _ => None
              end
            else
              match simple_escape e with
              | Some _ => check_chars r1
              | None => None
              end
        end
      else if N.ltb (N_of_ascii c) 32 then None
      else check_chars r
  end.

(** One digit at least. *)
Definition check_digits (t : text) : option text :=
  match span_digits t with
  | (_ :: _, rest) => Some rest
  | ([], _) => None
  end.

(** The optional fraction of a number: a point and digits. *)
Definition check_fraction (t : text) : option text :=
  match t with
  | c :: r => if Ascii.eqb c "." then check_digits r else Some t
  | [] => Some t
  end.

(** The optional exponent of a number: [e] or [E], a sign if any, digits. *)
Definition check_exponent (t : text) : option text :=
  match t with
  | c :: r =>
      if Ascii.eqb c "e" || Ascii.eqb c "E" then
        match r with
        | s :: r' =>
            if Ascii.eqb s "+" || Ascii.eqb s "-" then check_digits r'
            else check_digits r
        | [] => None
        end
      else Some t
  | [] => Some t
  end.

(** A number: the integer part as [parse_number] reads it, then the fraction
    and the exponent. *)
Definition check_number (t : text) : option text :=
  match parse_number t with
  | Some (_, rest) =>
      match check_fraction rest with
      | Some rest' => check_exponent rest'
      | None => None
      end
  | None => None
  end.

Fixpoint check_value (fuel : nat) (t : text) : option text :=
  match fuel with
  | O => None
  | S fuel' =>
      match skip_ws t with
      | [] => None
      | c :: r =>
          if is_digit c || Ascii.eqb c "-" then check_number (c :: r)
          else if Ascii.eqb c dquote then check_chars r
          else if Ascii.eqb c "[" then
            match skip_ws r with
            | c' :: r' =>
                if Ascii.eqb c' "]" then Some r' else check_elements fuel' r
            | [] => None
            end
          else if Ascii.eqb c "{" then
            match skip_ws r with
            | c' :: r' =>
                if Ascii.eqb c' "}" then Some r' else check_members fuel' r
            | [] => None
            end
          else if Ascii.eqb c "n" then strip_prefix (chars "null") (c :: r)
          else if Ascii.eqb c "t" then strip_prefix (chars "true") (c :: r)
          else if Ascii.eqb c "f" then strip_prefix (chars "false") (c :: r)
          else None
      end
  end
with check_elements (fuel : nat) (t : text) : option text :=
  match fuel with
  | O => None
  | S fuel' =>
      match check_value fuel' t with
      | Some r =>
          match skip_ws r with
          | c :: r' =>
              if Ascii.eqb c "," then check_elements fuel' r'
              else if Ascii.eqb c "]" then Some r'
              else None
          | [] => None
          end
      | None => None
      end
  end
with check_members (fuel : nat) (t : text) : option text :=
  match fuel with
  | O => None
  | S fuel' =>
      match skip_ws t with
      | q :: r0 =>
          if Ascii.eqb q dquote then
            match check_chars r0 with
            | Some r1 =>
                match skip_ws r1 with
                | colon :: r2 =>
                    if Ascii.eqb colon ":" then
                      match check_value fuel' r2 with
                      | Some r3 =>
                          match skip_ws r3 with
                          | c :: r4 =>
                              if Ascii.eqb c "," then check_members fuel' r4
                              else if Ascii.eqb c "}" then Some r4
                              else None
                          | [] => None
                          end
                      | None => None
                      end
                    else None
                | [] => None
                end
            | None => None
            end
          else None
      | [] => None
      end
  end.

(** Whether the text is one JSON value with white space around it.  A value
    is entered with more than twice the length of the rest of the text left
    to spend, so the bound is never what refuses a text. *)
Definition JSON_wellformed (s : string) : bool :=
  let t := chars s in
  match check_value (2 * List.length t + 2) t with
  | Some r =>
      match skip_ws r with
      | [] => true
      | _ :: _ => false
      end
  | None => false
  end.

(** A text that does not go on as a fraction or an exponent: what follows an
    integer literal that is a whole number. *)
Definition plain_tail (r : text) : Prop :=
  match r with
  | c :: _ => Ascii.eqb c "." = false /\ Ascii.eqb c "e" = false /\ Ascii.eqb c "E" = false
  | [] => True
  end.

(** ** Values that a text carries unchanged *)

(** A key made of digits only: the keys that an object lists ahead of the
    others, whatever the order of the text. *)
Definition digits_only (k : string) : bool :=
  match k with
  | EmptyString => false
  | String _ _ => forallb is_digit (chars k)
  end.

Fixpoint distinct (ks : list string) : bool :=
  match ks with
  | [] => true
  | k :: rest => negb (existsb (String.eqb k) rest) && distinct rest
  end.

(** The values on which the model and the runtime agree to the letter:
    integers that a double holds exactly, objects whose keys are pairwise
    distinct and none of which is made of digits.  [JSON.stringify] writes
    such a value as [stringify] does and [JSON.parse] reads the text back as
    the same value. *)
Fixpoint canonical (j : json) : bool :=
  match j with
  | JNull => true
  | JBool _ => true
  | JNum n => Z.leb (Z.abs n) 9007199254740992
  | JStr _ => true
  | JArr items => forallb canonical items
  | JObj members =>
      distinct (List.map fst members)
      && forallb (fun kv => negb (digits_only (fst kv)) && canonical (snd kv)) members
  end.

(** The cursors that the template literal of the request writes without a
    call to a method of theirs: [undefined] and the primitive values, a
    number being an integer that a double holds exactly.  The declared type
    [lastUserId?: string] has no others. *)
Definition plain_cursor (v : jsval) : bool :=
  match v with
  | Undefined => true
  | Val (JNum n) => Z.leb (Z.abs n) 9007199254740992
  | Val (JArr _) => false
  | Val (JObj _) => false
  | Val _ => true
  end.

(** The primitive values: the ones that convert to a number or to a string
    without a call to a method of their own. *)
Definition primitive (v : jsval) : bool :=
  match v with
  | Undefined => true
  | Val (JArr _) => false
  | Val (JObj _) => false
  | Val _ => true
  end.

(** ** The pages a run was served *)

(** The elements of the array that [rq] was answered with, after the
    requests of [history]. *)
Definition page_of (u : server) (history : list request) (rq : request) : list json :=
  match u history rq with
  | Some response =>
      match JSON_parse (body response) with
      | Some (JArr page) => page
      | _ => []
      end
  | None => []
  end.

(** The pages that the requests were answered with, one after the other. *)
Fixpoint served (u : server) (history : list request) (requests : list request) : list json :=
  match requests with
  | [] => []
  | rq :: rest => page_of u history rq ++ served u (history ++ [rq]) rest
  end.

(** An upstream that serves the two members of its roster in short pages:
    one member at a time. *)
Definition short_pages_world : world :=
  initial_world example_env
    (scripted [page_response [member "1"]; page_response [member "2"]; page_response []]).

(** A text with a fraction in it. *)
Definition fraction_text : string :=
  ("[{" ++ String dquote ("score" ++ String dquote ":1.5}]"))%string.

(** ** More surroundings: upstreams and snapshots *)

(** An upstream that answers every request with the same response. *)
Definition always (r : Response) : server := fun _ _ => Some r.

(** An upstream that never signals the end of the roster: whatever is asked,
    it answers with a non-empty array of GuildMember records. *)
Definition never_exhausted (u : server) : Prop :=
  forall history rq,
    exists response page,
      u history rq = Some response
      /\ JSON_parse (body response) = Some (JArr page)
      /\ page <> []
      /\ Forall GuildMember page.

(** Every body of the upstream that parses is an array of GuildMember
    records. *)
Definition serves_GuildMember_pages (u : server) : Prop :=
  forall history rq response v,
    u history rq = Some response ->
    JSON_parse (body response) = Some v ->
    exists page, v = JArr page /\ Forall GuildMember page.

(** A record on which the read of [resultItem.user.id] throws. *)
Definition unreadable (m : json) : Prop :=
  and_then (get (Val m) p_user) (fun user => get user p_id) = Throw TypeError.

(** The second argument of the [console.log] of the lookup. *)
Definition raw_snapshot (stored : option string) : jsval :=
  match stored with
  | Some s => Val (JStr s)
  | None => Val JNull
  end.

(** What the request of a page looks like. *)
Definition page_request_of (e : env) (rq : request) : Prop :=
  Authorization rq = ("Bot " ++ env_text (DISCORD_BOT_TOKEN e))%string
  /\ (url rq = members_url (env_text (DISCORD_GUILD_ID e))
      \/ exists c, url rq
                   = (members_url (env_text (DISCORD_GUILD_ID e)) ++ "&after=" ++ c)%string).

(** Worlds for the examples of the further properties. *)
Definition endless_world : world :=
  initial_world example_env (always (page_response [member "1"])).

Definition two_page_world : world :=
  initial_world example_env
    (scripted (List.map page_response [[member "1"; member "2"]; []])).

Definition rejecting_world : world :=
  initial_world example_env (scripted [page_response [member "1"]]).


(** A record whose [user.id] is the number 5. *)
Definition numbered_record : json := JObj [("user", JObj [("id", JNum 5)])].

Definition mixed_snapshot_world : world :=
  persist (JSON_stringify (JArr [numbered_record; member "U1"; JNull]))
    (initial_world example_env (scripted [])).

Definition null_first_world : world :=
  persist (JSON_stringify (JArr [member "U2"; JNull; member "U1"]))
    (initial_world example_env (scripted [])).

Definition garbled_world : world :=
  persist "[{" (initial_world example_env (scripted [])).

Definition object_snapshot_world : world :=
  persist (JSON_stringify (JObj [("members", JArr [member "U1"])]))
    (initial_world example_env (scripted [])).

Definition numeric_id_world : world :=
  persist (JSON_stringify (JArr [numbered_record; member "U1"]))
    (initial_world example_env (scripted [])).

(** [throttled_world] with every status replaced by 200. *)
Definition relabelled_world : world :=
  initial_world example_env
    (scripted [{| status := 200; body := body (page_response [member "1"; member "2"]) |};
               {| status := 200; body := body rate_limited |}]).

Definition unconfigured_world : world :=
  initial_world {| DISCORD_BOT_TOKEN := None; DISCORD_GUILD_ID := None |} (scripted []).

(** ** The account page: [Screen] and [loader] of [src/unnamed/part_000]

    The page asks Discord for the guilds of the signed-in user and tells
    whether the guild of the shop is among them. *)

(** StringToNumber once more, for the test [x >= 1]: whether the numeric
    value of a string is a number that is at least one. *)
Class StringAtLeastOne := string_at_least_one : string -> bool.

#[export] Instance integer_literals_at_least_one : StringAtLeastOne :=
  fun s =>
    match NilZero.int_of_string s with
    | Some d => Z.leb 1 (Z.of_int d)
    | None => false
    end.

Module AccountPage.

(** [v >= 1]; NaN compares false. *)
Definition at_least_one `{StringAtLeastOne} (v : jsval) : bool :=
  match v with
  | Undefined => false
  | Val JNull => false
  | Val (JBool b) => b
  | Val (JNum n) => Z.leb 1 n
  | Val (JStr s) => string_at_least_one s
  | Val (JArr items) => string_at_least_one (ToString_json (JArr items))
  | Val (JObj _) => false
  end.

(** [Array.prototype.some] over the elements, in order, stopping at the
    first hit; the callback may throw. *)
Fixpoint some_first (pred : json -> completion bool) (items : list json) : completion bool :=
  match items with
  | [] => Normal false
  | x :: rest =>
      match pred x with
      | Normal true => Normal true
      | Normal false => some_first pred rest
      | Throw e => Throw e
      | OutOfFuel => OutOfFuel
      end
  end.

(** [v.some(callback)]: only an array has the method. *)
Definition Array_some (v : jsval) (pred : json -> completion bool) : completion bool :=
  match v with
  | Val (JArr items) => some_first pred items
  | _ => Throw TypeError
  end.

Definition matchingDiscordId : string := "605444240016801879".

(** The fields of the Prisma record the loader reads. *)
Record DiscordProfile : Type := {
  authToken : option string
}.

Record LoaderData (User : Type) : Type := {
  user : User;
  discordProfile : option DiscordProfile;
  result : jsval
}.

Arguments user {User} _.
Arguments discordProfile {User} _.
Arguments result {User} _.

(** [discordProfile && discordProfile.authToken]. *)
Definition token_of (profile : option DiscordProfile) : jsval :=
  match profile with
  | None => Val JNull
  | Some p =>
      match authToken p with
      | Some t => Val (JStr t)
      | None => Val JNull
      end
  end.

(** [loader], lines 93-114, from the point where [isAuthenticated] has
    produced [user] and [getDiscordProfileByUserId] has produced
    [discordProfile] ([None] for [null]); both live outside [src]. *)
Definition loader {User : Type} (user : User) (discordProfile : option DiscordProfile)
  : js (LoaderData User) :=
  let authHeaders := ("Bearer " ++ ToString (token_of discordProfile))%string in
  discordGuilds <-
    fetch {| url := "https://discordapp.com/api/users/@me/guilds";
             Authorization := authHeaders |} ;;
  result <- Response_json discordGuilds ;;
  ret {| user := user; discordProfile := discordProfile; result := result |}.

Section Screen.

Context `{StringAtLeastOne}.

(** [hasJoinedDiscord], lines 38-40 of [Screen]. *)
Definition hasJoinedDiscord (result : jsval) : completion bool :=
  and_then (get result p_length) (fun len =>
    if at_least_one len
    then Array_some result
           (fun discordGuild =>
              and_then (get (Val discordGuild) p_id) (fun gid =>
              Normal (strict_eq_string gid matchingDiscordId)))
    else Normal false).

(** The sentence of lines 79-81. *)
Definition membership_sentence (result : jsval) : completion string :=
  and_then (hasJoinedDiscord result) (fun joined =>
    Normal ("You " ++ (if joined then "are" else "are not")
            ++ " a member of our Discord")%string).

End Screen.

(** The request of the loader. *)
Definition guilds_request (discordProfile : option DiscordProfile) : request :=
  {| url := "https://discordapp.com/api/users/@me/guilds";
     Authorization := ("Bearer " ++ ToString (token_of discordProfile))%string |}.

(** The guild of the shop, as Discord lists it. *)
Definition shop_guild : json :=
  JObj [("id", JStr "605444240016801879"); ("name", JStr "Shop"); ("owner", JBool false)].

Definition other_guild : json :=
  JObj [("id", JStr "41771983423143937"); ("name", JStr "Other"); ("owner", JBool false)].

(** The body Discord sends with status 401. *)
Definition unauthorized : Response :=
  {| status := 401;
     body := JSON_stringify (JObj [("message", JStr "401: Unauthorized"); ("code", JNum 0)]) |}.

End AccountPage.

(** A world in which Discord refuses the token. *)
Definition refused_world : world :=
  initial_world example_env (scripted [AccountPage.unauthorized]).

(** * Properties *)

(** ** Strings and texts *)

Lemma append_String (x : ascii) (a b : string) :
  (String x a ++ b)%string = String x (a ++ b)%string.
Proof. reflexivity. Qed.

Lemma string_app_assoc (a b c : string) : ((a ++ b) ++ c = a ++ (b ++ c))%string.
Proof.
  induction a as [|x a IH]; [reflexivity|].
  rewrite !append_String. now rewrite IH.
Qed.

Lemma chars_app (a b : string) : chars (a ++ b)%string = chars a ++ chars b.
Proof.
  unfold chars. induction a as [|x a IH]; [reflexivity|].
  rewrite append_String. cbn [list_ascii_of_string app].
  now rewrite IH.
Qed.

Lemma string_of_chars (s : string) : string_of_list_ascii (chars s) = s.
Proof. apply string_of_list_ascii_of_string. Qed.

Lemma chars_of_string (t : text) : chars (string_of_list_ascii t) = t.
Proof. apply list_ascii_of_string_of_list_ascii. Qed.

Lemma chars_inj (a b : string) : chars a = chars b -> a = b.
Proof.
  intros E. rewrite <- (string_of_list_ascii_of_string a), <- (string_of_list_ascii_of_string b).
  unfold chars in E. now rewrite E.
Qed.

(** ** One page request, unfolded *)

Lemma fetchGuildMembersChunk_request lastUserId w :
  fetchGuildMembersChunk lastUserId w = fetch (chunk_request (process_env w) lastUserId) w.
Proof.
  unfold fetchGuildMembersChunk, chunk_request, members_url.
  do 2 f_equal. now rewrite !string_app_assoc.
Qed.

Section Steps.

Context `{StringToNumber}.

Lemma fetchAllGuildMembers_step fuel previousMembers lastUserId w :
  fetchAllGuildMembers (S fuel) previousMembers lastUserId w =
    let rq := chunk_request (process_env w) lastUserId in
    match upstream w (sent w) rq with
    | None => (Throw NetworkError, log_request rq w)
    | Some response =>
        match JSON_parse (body response) with
        | None => (Throw SyntaxError, log_request rq w)
        | Some newMembers => continue_with fuel previousMembers newMembers (log_request rq w)
        end
    end.
Proof.
  cbn [fetchAllGuildMembers]. unfold bind at 1.
  rewrite fetchGuildMembersChunk_request. unfold fetch. cbv zeta.
  destruct (upstream w (sent w) _) as [response|]; [|reflexivity].
  unfold bind at 1, Response_json, lift.
  destruct (JSON_parse (body response)) as [newMembers|]; [|reflexivity].
  unfold continue_with, bind, lift, ret.
  destruct (get (Val newMembers) p_length) as [len| |]; try reflexivity.
  destruct (above_zero len); [|reflexivity].
  destruct (spread (Val newMembers)) as [fresh| |]; try reflexivity.
  destruct (get (last_item (previousMembers ++ fresh)) p_user) as [user| |]; reflexivity.
Qed.

End Steps.

(** ** [JSON.parse] reads back what [JSON.stringify] writes *)


Lemma skip_ws_head c r : is_ws c = false -> skip_ws (c :: r) = c :: r.
Proof. intros E. cbn [skip_ws]. now rewrite E. Qed.

Lemma parse_chars_escape c r :
  parse_chars (escape c ++ r) = prepend c (parse_chars r).
Proof.
  destruct c as [[] [] [] [] [] [] [] []]; reflexivity.
Qed.

Lemma parse_chars_quote_tail s r : parse_chars (quote_tail s ++ r) = Some (s, r).
Proof.
  induction s as [|c s IH]; [reflexivity|].
  cbn [quote_tail]. rewrite <- app_assoc, parse_chars_escape, IH. reflexivity.
Qed.

Lemma span_digits_uint d r :
  no_digit_head r ->
  span_digits (chars (NilEmpty.string_of_uint d) ++ r)
  = (chars (NilEmpty.string_of_uint d), r).
Proof.
  intros Hr. induction d as [|d IH|d IH|d IH|d IH|d IH|d IH|d IH|d IH|d IH|d IH];
    cbn [NilEmpty.string_of_uint chars list_ascii_of_string app].
  1: { destruct r as [|c r]; [reflexivity|]. cbn in Hr. cbn [span_digits]. now rewrite Hr. }
  all: unfold chars in IH; cbn [span_digits]; rewrite IH; reflexivity.
Qed.

Lemma digit_not_minus c : is_digit c = true -> Ascii.eqb c "-" = false.
Proof.
  destruct c as [[] [] [] [] [] [] [] []]; vm_compute; congruence.
Qed.

Lemma digit_not_ws c : (is_digit c || Ascii.eqb c "-") = true -> is_ws c = false.
Proof.
  destruct c as [[] [] [] [] [] [] [] []]; vm_compute; congruence.
Qed.

Lemma uint_head d :
  d <> Nil ->
  exists c t, chars (NilEmpty.string_of_uint d) = c :: t /\ is_digit c = true.
Proof.
  destruct d; [congruence|..]; intros _; eexists _, _; split; reflexivity.
Qed.

Lemma NilZero_uint_nonnil d :
  d <> Nil -> NilZero.string_of_uint d = NilEmpty.string_of_uint d.
Proof. destruct d; [congruence|..]; reflexivity. Qed.

Lemma to_int_digits n :
  exists d, d <> Nil /\
    (Z.to_int n = Pos d \/ Z.to_int n = Neg d).
Proof.
  destruct n as [|p|p]; cbn [Z.to_int].
  - exists (D0 Nil). split; [discriminate | now left].
  - exists (Pos.to_uint p). split; [apply DecimalPos.Unsigned.to_uint_nonnil | now left].
  - exists (Pos.to_uint p). split; [apply DecimalPos.Unsigned.to_uint_nonnil | now right].
Qed.

Lemma span_number_toString n r :
  no_digit_head r ->
  span_number (chars (Number_toString n) ++ r) = (chars (Number_toString n), r).
Proof.
  intros Hr. unfold Number_toString, NilZero.string_of_int.
  destruct (to_int_digits n) as (d & Hd & [E|E]); rewrite E, (NilZero_uint_nonnil d Hd).
  - destruct (uint_head d Hd) as (c & t & Ec & Hc).
    pose proof (span_digits_uint d r Hr) as Hs. rewrite Ec in *.
    cbn [app span_number] in *. rewrite (digit_not_minus c Hc). exact Hs.
  - cbn [chars list_ascii_of_string app span_number].
    change (Ascii.eqb "-" "-") with true. cbv iota.
    fold (chars (NilEmpty.string_of_uint d)).
    now rewrite (span_digits_uint d r Hr).
Qed.

Lemma Number_toString_parses n :
  NilZero.int_of_string (Number_toString n) = Some (Z.to_int n).
Proof.
  unfold Number_toString. apply NilZero.isi;
    destruct (to_int_digits n) as (d & Hd & [E|E]); rewrite E; congruence.
Qed.

Lemma parse_number_toString n r :
  no_digit_head r ->
  parse_number (chars (Number_toString n) ++ r) = Some (n, r).
Proof.
  intros Hr. unfold parse_number.
  rewrite (span_number_toString n r Hr).
  rewrite !string_of_chars.
  rewrite Number_toString_parses, DecimalZ.of_to, String.eqb_refl.
  reflexivity.
Qed.

Lemma Number_toString_head n :
  exists c t, chars (Number_toString n) = c :: t
              /\ (is_digit c || Ascii.eqb c "-") = true.
Proof.
  unfold Number_toString, NilZero.string_of_int.
  destruct (to_int_digits n) as (d & Hd & [E|E]); rewrite E, (NilZero_uint_nonnil d Hd).
  - destruct (uint_head d Hd) as (c & t & Ec & Hc).
    exists c, t. split; [exact Ec | now rewrite Hc].
  - eexists _, _. split; reflexivity.
Qed.

Lemma parse_value_number f c t :
  (is_digit c || Ascii.eqb c "-") = true ->
  parse_value (S f) (c :: t)
  = match parse_number (c :: t) with
    | Some (n, r) => Some (JNum n, r)
    | None => None
    end.
Proof.
  intros Hc. cbn [parse_value].
  rewrite (skip_ws_head c t (digit_not_ws c Hc)), Hc. reflexivity.
Qed.

Lemma parse_value_string f t :
  parse_value (S f) (dquote :: t)
  = match parse_chars t with
    | Some (s, r) => Some (JStr s, r)
    | None => None
    end.
Proof. reflexivity. Qed.

Lemma parse_value_array f c t :
  is_ws c = false -> Ascii.eqb c "]" = false ->
  parse_value (S f) ("["%char :: c :: t)
  = match parse_elements f (c :: t) with
    | Some (items, r) => Some (JArr items, r)
    | None => None
    end.
Proof.
  intros Hws Hc.
  change (parse_value (S f) ("["%char :: c :: t))
    with (match skip_ws (c :: t) with
          | c' :: r' =>
              if Ascii.eqb c' "]" then Some (JArr [], r')
              else match parse_elements f (c :: t) with
                   | Some (items, r'') => Some (JArr items, r'')
                   | None => None
                   end
          | [] => None
          end).
  rewrite (skip_ws_head c t Hws), Hc. reflexivity.
Qed.

Lemma parse_value_object f t :
  parse_value (S f) ("{"%char :: dquote :: t)
  = match parse_members f (dquote :: t) with
    | Some (members, r) => Some (JObj members, r)
    | None => None
    end.
Proof. reflexivity. Qed.

Lemma parse_elements_eq f t :
  parse_elements (S f) t
  = match parse_value f t with
    | Some (v, r) =>
        match skip_ws r with
        | c :: r' =>
            if Ascii.eqb c "," then
              match parse_elements f r' with
              | Some (vs, r'') => Some (v :: vs, r'')
              | None => None
              end
            else if Ascii.eqb c "]" then Some ([v], r')
            else None
        | [] => None
        end
    | None => None
    end.
Proof. reflexivity. Qed.

Lemma parse_members_eq f k t :
  parse_members (S f) (quote k ++ ":"%char :: t)
  = match parse_value f t with
    | Some (v, r3) =>
        match skip_ws r3 with
        | c :: r4 =>
            if Ascii.eqb c "," then
              match parse_members f r4 with
              | Some (kvs, r5) => Some ((k, v) :: kvs, r5)
              | None => None
              end
            else if Ascii.eqb c "}" then Some ([(k, v)], r4)
            else None
        | [] => None
        end
    | None => None
    end.
Proof.
  unfold quote. cbn [app].
  change (parse_members (S f) (dquote :: quote_tail k ++ ":"%char :: t))
    with (match parse_chars (quote_tail k ++ ":"%char :: t) with
          | Some (k, r1) =>
              match skip_ws r1 with
              | colon :: r2 =>
                  if Ascii.eqb colon ":" then
                    match parse_value f r2 with
                    | Some (v, r3) =>
                        match skip_ws r3 with
                        | c :: r4 =>
                            if Ascii.eqb c "," then
                              match parse_members f r4 with
                              | Some (kvs, r5) => Some ((k, v) :: kvs, r5)
                              | None => None
                              end
                            else if Ascii.eqb c "}" then Some ([(k, v)], r4)
                            else None
                        | [] => None
                        end
                    | None => None
                    end
                  else None
              | [] => None
              end
          | None => None
          end).
  rewrite parse_chars_quote_tail. reflexivity.
Qed.

Lemma comma_separated_cons p rest :
  comma_separated (p :: rest)
  = p ++ match rest with
         | [] => []
         | _ :: _ => ","%char :: comma_separated rest
         end.
Proof. destruct rest; cbn [comma_separated]; [now rewrite app_nil_r | reflexivity]. Qed.

Lemma digit_not_bracket c :
  (is_digit c || Ascii.eqb c "-") = true -> Ascii.eqb c "]" = false.
Proof.
  destruct c as [[] [] [] [] [] [] [] []]; vm_compute; congruence.
Qed.

Lemma stringify_head v :
  exists c t, stringify v = c :: t /\ is_ws c = false /\ Ascii.eqb c "]" = false.
Proof.
  destruct v as [|b|n|s|items|members]; cbn [stringify]; [|destruct b|..].
  4: { destruct (Number_toString_head n) as (c & t & E & Hc).
       exists c, t. split; [exact E|]. split; [now apply digit_not_ws | now apply digit_not_bracket]. }
  all: eexists _, _; split; [reflexivity | split; reflexivity].
Qed.

Lemma stringify_nonempty v : (1 <= List.length (stringify v))%nat.
Proof.
  destruct (stringify_head v) as (c & t & E & _). rewrite E. cbn [List.length]. lia.
Qed.

Lemma elements_read_back items :
  Forall reads_back items -> items <> [] ->
  forall fuel r,
    (S (List.length (comma_separated (List.map stringify items))) <= fuel)%nat ->
    parse_elements fuel (comma_separated (List.map stringify items) ++ "]"%char :: r)
    = Some (items, r).
Proof.
  induction 1 as [|x l Hx Hl IH]; [congruence|]. intros _ fuel r Hfuel.
  cbn [List.map] in *. rewrite comma_separated_cons in *.
  rewrite length_app in Hfuel.
  destruct fuel as [|f]; [lia|]. rewrite parse_elements_eq, <- app_assoc.
  destruct l as [|y l].
  - cbn [List.map app List.length] in *.
    rewrite Hx by (cbn; first [lia | reflexivity]).
    reflexivity.
  - cbn [List.map app List.length] in *.
    rewrite Hx by (cbn; first [lia | reflexivity]).
    cbn [app]. rewrite skip_ws_head by reflexivity.
    change (Ascii.eqb "," ",") with true. cbv iota.
    rewrite IH by (try congruence; lia).
    reflexivity.
Qed.

Lemma members_read_back members :
  Forall (fun kv => reads_back (snd kv)) members -> members <> [] ->
  forall fuel r,
    (S (List.length
          (comma_separated
             (List.map (fun kv => quote (fst kv) ++ ":"%char :: stringify (snd kv))
                members))) <= fuel)%nat ->
    parse_members fuel
      (comma_separated
         (List.map (fun kv => quote (fst kv) ++ ":"%char :: stringify (snd kv)) members)
       ++ "}"%char :: r)
    = Some (members, r).
Proof.
  induction 1 as [|[k v] l Hx Hl IH]; [congruence|]. intros _ fuel r Hfuel.
  cbn [List.map fst snd] in *. rewrite comma_separated_cons in *.
  rewrite !length_app in Hfuel. cbn [List.length] in Hfuel.
  destruct fuel as [|f]; [lia|].
  rewrite <- !app_assoc. cbn [app]. rewrite parse_members_eq.
  destruct l as [|y l].
  - cbn [List.map app List.length] in *.
    rewrite Hx by (cbn; first [lia | reflexivity]).
    reflexivity.
  - cbn [List.map app List.length] in *.
    rewrite Hx by (cbn; first [lia | reflexivity]).
    cbn [app]. rewrite skip_ws_head by reflexivity.
    change (Ascii.eqb "," ",") with true. cbv iota.
    rewrite IH by (try congruence; lia).
    reflexivity.
Qed.

Lemma stringify_reads_back v : reads_back v.
Proof.
  induction v as [|b|n|s|items IH|members IH] using json_ind; intros fuel r Hfuel Hr.
  - destruct fuel as [|f]; [cbn in Hfuel; lia | reflexivity].
  - destruct fuel as [|f]; [destruct b; cbn in Hfuel; lia | destruct b; reflexivity].
  - pose proof (stringify_nonempty (JNum n)) as Hlen.
    destruct fuel as [|f]; [lia|]. cbn [stringify] in *.
    destruct (Number_toString_head n) as (c & t & E & Hc).
    pose proof (parse_number_toString n r Hr) as Hp.
    rewrite E in *. cbn [app] in *.
    rewrite (parse_value_number f c _ Hc), Hp. reflexivity.
  - destruct fuel as [|f]; [cbn in Hfuel; lia|]. cbn [stringify]. unfold quote.
    cbn [app]. rewrite parse_value_string, parse_chars_quote_tail. reflexivity.
  - cbn [stringify] in *. cbn [List.length] in Hfuel. rewrite length_app in Hfuel.
    cbn [List.length] in Hfuel.
    destruct fuel as [|f]; [lia|].
    destruct items as [|x l]; [reflexivity|].
    pose proof (elements_read_back (x :: l) IH ltac:(congruence) f r ltac:(lia)) as He.
    cbn [app]. rewrite <- app_assoc. cbn [app].
    cbn [List.map] in *. rewrite comma_separated_cons in *.
    destruct (stringify_head x) as (c & t & E & Hws & Hc). rewrite E in *.
    cbn [app] in *. rewrite (parse_value_array f c _ Hws Hc), He. reflexivity.
  - cbn [stringify] in *. cbn [List.length] in Hfuel. rewrite length_app in Hfuel.
    cbn [List.length] in Hfuel.
    destruct fuel as [|f]; [lia|].
    destruct members as [|[k x] l]; [reflexivity|].
    pose proof (members_read_back ((k, x) :: l) IH ltac:(congruence) f r ltac:(lia)) as He.
    cbn [app]. rewrite <- app_assoc. cbn [app].
    cbn [List.map fst snd] in *. rewrite comma_separated_cons in *.
    unfold quote in *. cbn [app] in *.
    rewrite parse_value_object, He. reflexivity.
Qed.

Lemma JSON_parse_stringify v : JSON_parse (JSON_stringify v) = Some v.
Proof.
  unfold JSON_parse, JSON_stringify. rewrite chars_of_string.
  pose proof (stringify_reads_back v (S (List.length (stringify v))) [] ltac:(lia) I) as E.
  rewrite app_nil_r in E. rewrite E. reflexivity.
Qed.

(** ** The recogniser accepts what the parser reads *)

Lemma prepend_Some c o s r :
  prepend c o = Some (s, r) -> exists s', o = Some (s', r).
Proof.
  destruct o as [[s' r']|]; cbn; [|discriminate].
  intros E. injection E as _ <-. now exists s'.
Qed.

Lemma unicode_escape_hex h1 h2 h3 h4 c :
  unicode_escape h1 h2 h3 h4 = Some c ->
  is_hex h1 && is_hex h2 && is_hex h3 && is_hex h4 = true.
Proof.
  unfold unicode_escape, is_hex.
  destruct (hex_value h1) as [[|?]|]; try discriminate.
  destruct (hex_value h2) as [[|?]|]; try discriminate.
  destruct (hex_value h3); try discriminate.
  destruct (hex_value h4); try discriminate.
  reflexivity.
Qed.

Lemma check_chars_of_parse_chars (n : nat) :
  forall t s r,
    (List.length t <= n)%nat -> parse_chars t = Some (s, r) -> check_chars t = Some r.
Proof.
  induction n as [|n IH]; intros t s r Hn E.
  - destruct t; [discriminate|cbn in Hn; lia].
  - destruct t as [|c t]; [discriminate|].
    cbn [parse_chars check_chars] in *. cbn [List.length] in Hn.
    destruct (Ascii.eqb c dquote).
    { injection E as _ <-. reflexivity. }
    destruct (Ascii.eqb c "\").
    + destruct t as [|e r1]; [discriminate|].
      cbn [List.length] in Hn.
      destruct (Ascii.eqb e "u").
      * destruct r1 as [|h1 [|h2 [|h3 [|h4 r2]]]]; try discriminate.
        destruct (unicode_escape h1 h2 h3 h4) eqn:Eu; [|discriminate].
        rewrite (unicode_escape_hex _ _ _ _ _ Eu).
        apply prepend_Some in E. destruct E as (s' & E).
        apply (IH _ s'); [cbn [List.length] in Hn; lia|exact E].
      * destruct (simple_escape e); [|discriminate].
        apply prepend_Some in E. destruct E as (s' & E).
        apply (IH _ s'); [lia|exact E].
    + destruct (N.ltb (N_of_ascii c) 32); [discriminate|].
      apply prepend_Some in E. destruct E as (s' & E).
      apply (IH _ s'); [lia|exact E].
Qed.

Lemma ws_is_plain c :
  is_ws c = true ->
  Ascii.eqb c "." = false /\ Ascii.eqb c "e" = false /\ Ascii.eqb c "E" = false.
Proof.
  destruct c as [[] [] [] [] [] [] [] []]; vm_compute; intros; repeat split; congruence.
Qed.

Lemma separator_is_plain c :
  Ascii.eqb c "," || Ascii.eqb c "]" || Ascii.eqb c "}" = true ->
  Ascii.eqb c "." = false /\ Ascii.eqb c "e" = false /\ Ascii.eqb c "E" = false.
Proof.
  destruct c as [[] [] [] [] [] [] [] []]; vm_compute; intros; repeat split; congruence.
Qed.

Lemma plain_before_separator r c r' :
  skip_ws r = c :: r' ->
  Ascii.eqb c "," || Ascii.eqb c "]" || Ascii.eqb c "}" = true ->
  plain_tail r.
Proof.
  destruct r as [|x r]; [discriminate|].
  cbn [skip_ws plain_tail]. destruct (is_ws x) eqn:Ews.
  - intros _ _. now apply ws_is_plain.
  - intros E. injection E as -> _. apply separator_is_plain.
Qed.

Lemma plain_before_end r : skip_ws r = [] -> plain_tail r.
Proof.
  destruct r as [|x r]; [intros _; exact I|].
  cbn [skip_ws plain_tail]. destruct (is_ws x) eqn:Ews; [|discriminate].
  intros _. now apply ws_is_plain.
Qed.

Lemma check_number_of_parse_number t n r :
  parse_number t = Some (n, r) -> plain_tail r -> check_number t = Some r.
Proof.
  intros E Hr. unfold check_number. rewrite E.
  destruct r as [|c r]; [reflexivity|].
  cbn [plain_tail] in Hr. destruct Hr as (Hp & He & HE).
  cbn [check_fraction check_exponent]. rewrite Hp. cbn [check_exponent].
  now rewrite He, HE.
Qed.

Lemma check_of_parse (fuel : nat) :
  (forall fuel' t v r,
      (fuel <= fuel')%nat -> parse_value fuel t = Some (v, r) -> plain_tail r ->
      check_value fuel' t = Some r)
  /\ (forall fuel' t vs r,
         (fuel <= fuel')%nat -> parse_elements fuel t = Some (vs, r) ->
         check_elements fuel' t = Some r)
  /\ (forall fuel' t kvs r,
         (fuel <= fuel')%nat -> parse_members fuel t = Some (kvs, r) ->
         check_members fuel' t = Some r).
Proof.
  induction fuel as [|fuel (IHv & IHe & IHm)].
  { repeat split; intros; discriminate. }
  repeat split.
  - intros [|fuel'] t v r Hf E Hr; [lia|].
    assert (Hf' : (fuel <= fuel')%nat) by lia.
    cbn [parse_value check_value] in *.
    destruct (skip_ws t) as [|c t']; [discriminate|].
    destruct (is_digit c || Ascii.eqb c "-").
    { destruct (parse_number (c :: t')) as [[n r']|] eqn:En; [|discriminate].
      injection E as _ <-. now apply (check_number_of_parse_number _ n). }
    destruct (Ascii.eqb c dquote).
    { destruct (parse_chars t') as [[s r']|] eqn:Es; [|discriminate].
      injection E as _ <-. now apply (check_chars_of_parse_chars _ _ s _ (le_n _)). }
    destruct (Ascii.eqb c "[").
    { destruct (skip_ws t') as [|c' r']; [discriminate|].
      destruct (Ascii.eqb c' "]").
      - now injection E as _ <-.
      - destruct (parse_elements fuel t') as [[items r'']|] eqn:Ee; [|discriminate].
        injection E as _ <-. now apply (IHe _ _ items). }
    destruct (Ascii.eqb c "{").
    { destruct (skip_ws t') as [|c' r']; [discriminate|].
      destruct (Ascii.eqb c' "}").
      - now injection E as _ <-.
      - destruct (parse_members fuel t') as [[members r'']|] eqn:Em; [|discriminate].
        injection E as _ <-. now apply (IHm _ _ members). }
    unfold literal in E.
    destruct (Ascii.eqb c "n").
    { destruct (strip_prefix (chars "null") (c :: t')); [|discriminate].
      now injection E as _ <-. }
    destruct (Ascii.eqb c "t").
    { destruct (strip_prefix (chars "true") (c :: t')); [|discriminate].
      now injection E as _ <-. }
    destruct (Ascii.eqb c "f"); [|discriminate].
    destruct (strip_prefix (chars "false") (c :: t')); [|discriminate].
    now injection E as _ <-.
  - intros [|fuel'] t vs r Hf E; [lia|].
    assert (Hf' : (fuel <= fuel')%nat) by lia.
    cbn [parse_elements check_elements] in *.
    destruct (parse_value fuel t) as [[v r0]|] eqn:Ev; [|discriminate].
    destruct (skip_ws r0) as [|c r'] eqn:Ews; [discriminate|].
    destruct (Ascii.eqb c ",") eqn:Ec.
    + rewrite (IHv fuel' t v r0 Hf' Ev).
      2: { apply (plain_before_separator _ _ _ Ews). now rewrite Ec. }
      rewrite Ews, Ec.
      destruct (parse_elements fuel r') as [[vs' r'']|] eqn:Ee; [|discriminate].
      injection E as _ <-. now apply (IHe _ _ vs').
    + destruct (Ascii.eqb c "]") eqn:Ec'; [|discriminate].
      rewrite (IHv fuel' t v r0 Hf' Ev).
      2: { apply (plain_before_separator _ _ _ Ews). rewrite Ec'. now rewrite orb_true_r. }
      rewrite Ews, Ec, Ec'. now injection E as _ <-.
  - intros [|fuel'] t kvs r Hf E; [lia|].
    assert (Hf' : (fuel <= fuel')%nat) by lia.
    cbn [parse_members check_members] in *.
    destruct (skip_ws t) as [|q r0]; [discriminate|].
    destruct (Ascii.eqb q dquote); [|discriminate].
    destruct (parse_chars r0) as [[k r1]|] eqn:Ek; [|discriminate].
    rewrite (check_chars_of_parse_chars _ _ k _ (le_n _) Ek).
    destruct (skip_ws r1) as [|colon r2]; [discriminate|].
    destruct (Ascii.eqb colon ":"); [|discriminate].
    destruct (parse_value fuel r2) as [[v r3]|] eqn:Ev; [|discriminate].
    destruct (skip_ws r3) as [|c r4] eqn:Ews; [discriminate|].
    destruct (Ascii.eqb c ",") eqn:Ec.
    + rewrite (IHv fuel' r2 v r3 Hf' Ev).
      2: { apply (plain_before_separator _ _ _ Ews). now rewrite Ec. }
      rewrite Ews, Ec.
      destruct (parse_members fuel r4) as [[kvs' r5]|] eqn:Em; [|discriminate].
      injection E as _ <-. now apply (IHm _ _ kvs').
    + destruct (Ascii.eqb c "}") eqn:Ec'; [|discriminate].
      rewrite (IHv fuel' r2 v r3 Hf' Ev).
      2: { apply (plain_before_separator _ _ _ Ews). rewrite Ec'. now rewrite !orb_true_r. }
      rewrite Ews, Ec, Ec'. now injection E as _ <-.
Qed.

(** A text that [JSON_parse] reads is well formed. *)
Lemma JSON_parse_wellformed (s : string) (v : json) :
  JSON_parse s = Some v -> JSON_wellformed s = true.
Proof.
  unfold JSON_parse, JSON_wellformed. cbv zeta.
  destruct (parse_value (S (List.length (chars s))) (chars s)) as [[v' r]|] eqn:E;
    [|discriminate].
  destruct (skip_ws r) as [|c r'] eqn:Ews; [|discriminate].
  intros _.
  assert (Hfuel : (S (List.length (chars s)) <= 2 * List.length (chars s) + 2)%nat) by lia.
  rewrite (proj1 (check_of_parse _) _ _ _ _ Hfuel E (plain_before_end _ Ews)).
  now rewrite Ews.
Qed.

(** On a malformed text [JSON_parse] fails. *)
Lemma JSON_parse_malformed (s : string) :
  JSON_wellformed s = false -> JSON_parse s = None.
Proof.
  intros Hs. destruct (JSON_parse s) as [v|] eqn:E; [|reflexivity].
  apply JSON_parse_wellformed in E. congruence.
Qed.

(** A text with a fraction is well formed, and outside the modelled texts. *)
Example fraction_text_is_wellformed :
  JSON_wellformed fraction_text = true /\ JSON_parse fraction_text = None.
Proof. split; vm_compute; reflexivity. Qed.

(** ** The bound of the recogniser is never what refuses a text *)

Lemma skip_ws_length t : (List.length (skip_ws t) <= List.length t)%nat.
Proof.
  induction t as [|c t IH]; [reflexivity|].
  cbn [skip_ws]. destruct (is_ws c); cbn [List.length]; lia.
Qed.

Lemma skip_ws_cons_length t c r :
  skip_ws t = c :: r -> (S (List.length r) <= List.length t)%nat.
Proof.
  intros E. pose proof (skip_ws_length t) as Hlen. rewrite E in Hlen. exact Hlen.
Qed.

Lemma check_chars_length (n : nat) :
  forall t r, (List.length t <= n)%nat -> check_chars t = Some r ->
              (List.length r <= List.length t)%nat.
Proof.
  induction n as [|n IH]; intros t r Hn E.
  - destruct t; [discriminate|cbn in Hn; lia].
  - destruct t as [|c t]; [discriminate|].
    cbn [check_chars] in E. cbn [List.length] in *.
    destruct (Ascii.eqb c dquote).
    { injection E as <-. lia. }
    destruct (Ascii.eqb c "\").
    + destruct t as [|e r1]; [discriminate|]. cbn [List.length] in *.
      destruct (Ascii.eqb e "u").
      * destruct r1 as [|h1 [|h2 [|h3 [|h4 r2]]]]; try discriminate.
        cbn [List.length] in *.
        destruct (is_hex h1 && is_hex h2 && is_hex h3 && is_hex h4); [|discriminate].
        apply IH in E; lia.
      * destruct (simple_escape e); [|discriminate]. apply IH in E; lia.
    + destruct (N.ltb (N_of_ascii c) 32); [discriminate|]. apply IH in E; lia.
Qed.

Lemma span_digits_length t :
  (List.length (snd (span_digits t)) <= List.length t)%nat.
Proof.
  induction t as [|c t IH]; [reflexivity|].
  cbn [span_digits]. destruct (is_digit c); [|reflexivity].
  destruct (span_digits t) as [d rest]. cbn [snd List.length] in *. lia.
Qed.

Lemma check_digits_length t r :
  check_digits t = Some r -> (List.length r <= List.length t)%nat.
Proof.
  unfold check_digits. pose proof (span_digits_length t) as Hlen.
  destruct (span_digits t) as [[|d ds] rest]; [discriminate|].
  intros [= <-]. exact Hlen.
Qed.

Lemma check_number_length t r :
  check_number t = Some r -> (List.length r <= List.length t)%nat.
Proof.
  unfold check_number, parse_number.
  assert (Hspan : (List.length (snd (span_number t)) <= List.length t)%nat).
  { destruct t as [|c t]; [reflexivity|]. cbn [span_number].
    destruct (Ascii.eqb c "-").
    - pose proof (span_digits_length t) as Hlen.
      destruct (span_digits t) as [d rest]. cbn [snd List.length] in *. lia.
    - apply span_digits_length. }
  destruct (span_number t) as [lit rest]. cbn [snd] in Hspan.
  destruct (NilZero.int_of_string _); [|discriminate].
  destruct (_ || _); [|discriminate].
  destruct (check_fraction rest) as [r1|] eqn:Ef; [|discriminate].
  intros Ee.
  assert (H1 : (List.length r1 <= List.length rest)%nat).
  { unfold check_fraction in Ef. destruct rest as [|c rest']; [now injection Ef as <-|].
    destruct (Ascii.eqb c "."); [|now injection Ef as <-].
    apply check_digits_length in Ef. cbn [List.length]. lia. }
  assert (H2 : (List.length r <= List.length r1)%nat).
  { unfold check_exponent in Ee. destruct r1 as [|c r1']; [now injection Ee as <-|].
    destruct (_ || _); [|now injection Ee as <-].
    destruct r1' as [|sg r1'']; [discriminate|].
    destruct (_ || _); apply check_digits_length in Ee; cbn [List.length] in *; lia. }
  lia.
Qed.

Lemma strip_prefix_length p t r :
  strip_prefix p t = Some r -> (List.length r <= List.length t)%nat.
Proof.
  revert t. induction p as [|c p IH]; intros t; cbn [strip_prefix].
  - now intros [= <-].
  - destruct t as [|c' t]; [discriminate|].
    destruct (Ascii.eqb c c'); [|discriminate].
    intros E. apply IH in E. cbn [List.length]. lia.
Qed.

Lemma check_length (fuel : nat) :
  (forall t r, check_value fuel t = Some r -> (List.length r <= List.length t)%nat)
  /\ (forall t r, check_elements fuel t = Some r -> (List.length r <= List.length t)%nat)
  /\ (forall t r, check_members fuel t = Some r -> (List.length r <= List.length t)%nat).
Proof.
  induction fuel as [|fuel (IHv & IHe & IHm)].
  { repeat split; intros; discriminate. }
  repeat split.
  - intros t r. cbn [check_value].
    destruct (skip_ws t) as [|c t'] eqn:Ews; [discriminate|].
    apply skip_ws_cons_length in Ews.
    destruct (is_digit c || Ascii.eqb c "-").
    { intros E. apply check_number_length in E. cbn [List.length] in E. lia. }
    destruct (Ascii.eqb c dquote).
    { intros E. apply (check_chars_length _ _ _ (le_n _)) in E. lia. }
    destruct (Ascii.eqb c "[").
    { destruct (skip_ws t') as [|c' r'] eqn:Ews'; [discriminate|].
      apply skip_ws_cons_length in Ews'.
      destruct (Ascii.eqb c' "]"); [intros [= <-]; lia|].
      intros E. apply IHe in E. lia. }
    destruct (Ascii.eqb c "{").
    { destruct (skip_ws t') as [|c' r'] eqn:Ews'; [discriminate|].
      apply skip_ws_cons_length in Ews'.
      destruct (Ascii.eqb c' "}"); [intros [= <-]; lia|].
      intros E. apply IHm in E. lia. }
    destruct (Ascii.eqb c "n").
    { intros E. apply strip_prefix_length in E. cbn [List.length] in E. lia. }
    destruct (Ascii.eqb c "t").
    { intros E. apply strip_prefix_length in E. cbn [List.length] in E. lia. }
    destruct (Ascii.eqb c "f"); [|discriminate].
    intros E. apply strip_prefix_length in E. cbn [List.length] in E. lia.
  - intros t r. cbn [check_elements].
    destruct (check_value fuel t) as [r0|] eqn:Ev; [|discriminate].
    apply IHv in Ev.
    destruct (skip_ws r0) as [|c r'] eqn:Ews; [discriminate|].
    apply skip_ws_cons_length in Ews.
    destruct (Ascii.eqb c ","); [intros E; apply IHe in E; lia|].
    destruct (Ascii.eqb c "]"); [|discriminate]. intros [= <-]. lia.
  - intros t r. cbn [check_members].
    destruct (skip_ws t) as [|q r0] eqn:Ews0; [discriminate|].
    apply skip_ws_cons_length in Ews0.
    destruct (Ascii.eqb q dquote); [|discriminate].
    destruct (check_chars r0) as [r1|] eqn:Ek; [|discriminate].
    apply (check_chars_length _ _ _ (le_n _)) in Ek.
    destruct (skip_ws r1) as [|colon r2] eqn:Ews1; [discriminate|].
    apply skip_ws_cons_length in Ews1.
    destruct (Ascii.eqb colon ":"); [|discriminate].
    destruct (check_value fuel r2) as [r3|] eqn:Ev; [|discriminate].
    apply IHv in Ev.
    destruct (skip_ws r3) as [|c r4] eqn:Ews3; [discriminate|].
    apply skip_ws_cons_length in Ews3.
    destruct (Ascii.eqb c ","); [intros E; apply IHm in E; lia|].
    destruct (Ascii.eqb c "}"); [|discriminate]. intros [= <-]. lia.
Qed.

Lemma check_fuel (fuel : nat) :
  (forall fuel' t,
      (2 * List.length t + 1 <= fuel)%nat -> (fuel <= fuel')%nat ->
      check_value fuel' t = check_value fuel t)
  /\ (forall fuel' t,
         (2 * List.length t + 2 <= fuel)%nat -> (fuel <= fuel')%nat ->
         check_elements fuel' t = check_elements fuel t)
  /\ (forall fuel' t,
         (2 * List.length t + 2 <= fuel)%nat -> (fuel <= fuel')%nat ->
         check_members fuel' t = check_members fuel t).
Proof.
  induction fuel as [|fuel (IHv & IHe & IHm)].
  { repeat split; intros; lia. }
  repeat split.
  - intros [|fuel'] t Hlen Hle; [lia|]. cbn [check_value].
    destruct (skip_ws t) as [|c t'] eqn:Ews; [reflexivity|].
    apply skip_ws_cons_length in Ews.
    destruct (is_digit c || Ascii.eqb c "-"); [reflexivity|].
    destruct (Ascii.eqb c dquote); [reflexivity|].
    destruct (Ascii.eqb c "[").
    { destruct (skip_ws t') as [|c' r'] eqn:Ews'; [reflexivity|].
      destruct (Ascii.eqb c' "]"); [reflexivity|]. apply IHe; lia. }
    destruct (Ascii.eqb c "{"); [|reflexivity].
    destruct (skip_ws t') as [|c' r'] eqn:Ews'; [reflexivity|].
    destruct (Ascii.eqb c' "}"); [reflexivity|]. apply IHm; lia.
  - intros [|fuel'] t Hlen Hle; [lia|]. cbn [check_elements].
    rewrite (IHv fuel' t) by lia.
    destruct (check_value fuel t) as [r0|] eqn:Ev; [|reflexivity].
    apply (proj1 (check_length fuel)) in Ev.
    destruct (skip_ws r0) as [|c r'] eqn:Ews; [reflexivity|].
    apply skip_ws_cons_length in Ews.
    destruct (Ascii.eqb c ","); [|reflexivity]. apply IHe; lia.
  - intros [|fuel'] t Hlen Hle; [lia|]. cbn [check_members].
    destruct (skip_ws t) as [|q r0] eqn:Ews0; [reflexivity|].
    apply skip_ws_cons_length in Ews0.
    destruct (Ascii.eqb q dquote); [|reflexivity].
    destruct (check_chars r0) as [r1|] eqn:Ek; [|reflexivity].
    apply (check_chars_length _ _ _ (le_n _)) in Ek.
    destruct (skip_ws r1) as [|colon r2] eqn:Ews1; [reflexivity|].
    apply skip_ws_cons_length in Ews1.
    destruct (Ascii.eqb colon ":"); [|reflexivity].
    rewrite (IHv fuel' r2) by lia.
    destruct (check_value fuel r2) as [r3|] eqn:Ev; [|reflexivity].
    apply (proj1 (check_length fuel)) in Ev.
    destruct (skip_ws r3) as [|c r4] eqn:Ews3; [reflexivity|].
    apply skip_ws_cons_length in Ews3.
    destruct (Ascii.eqb c ","); [|reflexivity]. apply IHm; lia.
Qed.

(** More steps do not make the recogniser accept more: its answer is the
    answer of the grammar. *)
Lemma JSON_wellformed_any_bound (s : string) (fuel : nat) :
  (2 * List.length (chars s) + 2 <= fuel)%nat ->
  check_value fuel (chars s) = check_value (2 * List.length (chars s) + 2) (chars s).
Proof. intros Hfuel. apply (proj1 (check_fuel _)); lia. Qed.

(** ** What a run changes: the request log only *)

Section Frame.

Context `{StringToNumber}.

Lemma fetchAllGuildMembers_frame fuel previousMembers lastUserId w :
  let w' := snd (fetchAllGuildMembers fuel previousMembers lastUserId w) in
  process_env w' = process_env w /\ upstream w' = upstream w
  /\ redis w' = redis w /\ console w' = console w
  /\ exists requests, sent w' = sent w ++ requests.
Proof.
  revert previousMembers lastUserId w.
  induction fuel as [|fuel IH]; intros previousMembers lastUserId w.
  - cbn. repeat split; try reflexivity. exists []. now rewrite app_nil_r.
  - rewrite fetchAllGuildMembers_step. cbv zeta.
    set (rq := chunk_request (process_env w) lastUserId).
    assert (Hstop : forall c : completion string,
               let w' := snd (c, log_request rq w) in
               process_env w' = process_env w /\ upstream w' = upstream w
               /\ redis w' = redis w /\ console w' = console w
               /\ exists requests, sent w' = sent w ++ requests).
    { intros c. cbn. repeat split; try reflexivity. now exists [rq]. }
    destruct (upstream w (sent w) rq) as [response|]; [|apply Hstop].
    destruct (JSON_parse (body response)) as [newMembers|]; [|apply Hstop].
    unfold continue_with.
    destruct (get (Val newMembers) p_length) as [len| |]; try apply Hstop.
    destruct (above_zero len); [|apply Hstop].
    destruct (spread (Val newMembers)) as [fresh| |]; try apply Hstop.
    destruct (and_then _ _) as [id| |]; try apply Hstop.
    destruct (IH (previousMembers ++ fresh) id (log_request rq w))
      as (He & Hu & Hr & Hc & reqs & Hs).
    cbv zeta. rewrite He, Hu, Hr, Hc, Hs. cbn.
    repeat split; try reflexivity. exists (rq :: reqs). now rewrite <- app_assoc.
Qed.

End Frame.

(** ** The pagination step *)

Section Pagination.

Context `{StringToNumber}.

Lemma last_item_app (previousMembers page : list json) :
  page <> [] ->
  exists m, last_item (previousMembers ++ page) = Val m /\ m ∈ page.
Proof.
  intros Hne. destruct (exists_last Hne) as (front & m & ->).
  exists m. split.
  - unfold last_item. now rewrite app_assoc, last_snoc.
  - apply list_elem_of_In, in_or_app. right. now left.
Qed.

Lemma continue_with_page fuel previousMembers page w1 :
  page <> [] ->
  continue_with fuel previousMembers (JArr page) w1
  = match and_then (get (last_item (previousMembers ++ page)) p_user)
            (fun user => get user p_id) with
    | Normal id => fetchAllGuildMembers fuel (previousMembers ++ page) id w1
    | Throw e => (Throw e, w1)
    | OutOfFuel => (OutOfFuel, w1)
    end.
Proof.
  intros Hne. unfold continue_with. cbn [get above_zero spread].
  destruct page as [|m page]; [congruence|].
  replace (Z.ltb 0 (Z.of_nat (List.length (m :: page)))) with true; [reflexivity|].
  symmetry. apply Z.ltb_lt. cbn [List.length]. lia.
Qed.

Lemma continue_with_exhausted fuel previousMembers v w1 :
  reads_as_exhausted v = true ->
  continue_with fuel previousMembers v w1
  = (Normal (JSON_stringify (JArr previousMembers)), w1).
Proof.
  unfold reads_as_exhausted, continue_with.
  destruct (get (Val v) p_length) as [len| |]; try discriminate.
  destruct (above_zero len); [discriminate | reflexivity].
Qed.

(** The bodies that read as exhausted, shape by shape. *)
Lemma reads_as_exhausted_shapes :
  reads_as_exhausted JNull = false
  /\ (forall b, reads_as_exhausted (JBool b) = true)
  /\ (forall n, reads_as_exhausted (JNum n) = true)
  /\ reads_as_exhausted (JStr "") = true
  /\ reads_as_exhausted (JArr []) = true
  /\ (forall x items, reads_as_exhausted (JArr (x :: items)) = false)
  /\ (forall members,
        own_property "length" members = Undefined ->
        reads_as_exhausted (JObj members) = true).
Proof.
  split; [reflexivity|]. split; [reflexivity|]. split; [reflexivity|].
  split; [reflexivity|]. split; [reflexivity|]. split.
  - intros x items. unfold reads_as_exhausted. cbn [get above_zero].
    replace (Z.ltb 0 (Z.of_nat (List.length (x :: items)))) with true; [reflexivity|].
    symmetry. apply Z.ltb_lt. cbn [List.length]. lia.
  - intros members Hnone. unfold reads_as_exhausted. cbn [get prop_name].
    now rewrite Hnone.
Qed.

(** C4. A call whose page parses to a non-empty sequence, that is to some
    records followed by a last one, recurses on [accumulated] followed by
    the page, unchanged and in order, with the [user.id] of that last record
    as the new cursor; a call whose page is empty returns the serialized
    form of [accumulated]. *)
Theorem fetchAllGuildMembers_page_step fuel accumulated lastCursor w response page
    (Hcursor : plain_cursor lastCursor = true)
    (Haccumulated : Forall (fun m => canonical m = true) accumulated)
    (Hresponse : upstream w (sent w) (chunk_request (process_env w) lastCursor)
                 = Some response)
    (Hpage : JSON_parse (body response) = Some (JArr page)) :
  let w1 := log_request (chunk_request (process_env w) lastCursor) w in
  (forall front lastRecord user cursor,
     page = front ++ [lastRecord] ->
     get (Val lastRecord) p_user = Normal user ->
     get user p_id = Normal cursor ->
     fetchAllGuildMembers (S fuel) accumulated lastCursor w
     = fetchAllGuildMembers fuel (accumulated ++ front ++ [lastRecord]) cursor w1)
  /\ (page = [] ->
      fetchAllGuildMembers (S fuel) accumulated lastCursor w
      = (Normal (JSON_stringify (JArr accumulated)), w1)).
Proof.
  cbv zeta. rewrite fetchAllGuildMembers_step. cbv zeta. rewrite Hresponse, Hpage.
  split.
  - intros front lastRecord user cursor -> Huser Hid.
    rewrite continue_with_page by (now destruct front).
    unfold last_item. rewrite app_assoc, last_snoc.
    rewrite Huser. cbn [and_then]. now rewrite Hid.
  - intros ->. reflexivity.
Qed.

(** C6. An empty first page: the result is the text of the empty array. *)
Theorem fetchAllGuildMembers_empty_first_page fuel w response
    (Hresponse : upstream w (sent w) (chunk_request (process_env w) Undefined)
                 = Some response)
    (Hpage : JSON_parse (body response) = Some (JArr [])) :
  fetchAllGuildMembers (S fuel) [] Undefined w
  = (Normal "[]"%string, log_request (chunk_request (process_env w) Undefined) w).
Proof.
  rewrite fetchAllGuildMembers_step. cbv zeta. rewrite Hresponse, Hpage. reflexivity.
Qed.

(** C10, amended. A page body that parses to a value other than [null]
    whose [length] is absent, or is a primitive value that is not above zero
    (an error object such as the rate-limit payload, a number, a boolean, an
    empty string, an empty array), ends the loop like an empty page: the
    call returns the serialization of the members accumulated so far and
    does not fail. *)
Theorem fetchAllGuildMembers_exhausted_by_any_lengthless_body
    fuel accumulated lastCursor w response v len
    (Hcursor : plain_cursor lastCursor = true)
    (Haccumulated : Forall (fun m => canonical m = true) accumulated)
    (Hresponse : upstream w (sent w) (chunk_request (process_env w) lastCursor)
                 = Some response)
    (Hbody : JSON_parse (body response) = Some v)
    (Hlength : get (Val v) p_length = Normal len)
    (Hprimitive : primitive len = true)
    (Hnot_above : above_zero len = false) :
  fetchAllGuildMembers (S fuel) accumulated lastCursor w
  = (Normal (JSON_stringify (JArr accumulated)),
     log_request (chunk_request (process_env w) lastCursor) w).
Proof.
  rewrite fetchAllGuildMembers_step. cbv zeta. rewrite Hresponse, Hbody.
  apply continue_with_exhausted. unfold reads_as_exhausted.
  now rewrite Hlength, Hnot_above.
Qed.

(** A body that parses to [null] makes the call fail: [null.length]. *)
Lemma fetchAllGuildMembers_null_body fuel accumulated lastCursor w response
    (Hresponse : upstream w (sent w) (chunk_request (process_env w) lastCursor)
                 = Some response)
    (Hbody : JSON_parse (body response) = Some JNull) :
  fetchAllGuildMembers (S fuel) accumulated lastCursor w
  = (Throw TypeError, log_request (chunk_request (process_env w) lastCursor) w).
Proof.
  rewrite fetchAllGuildMembers_step. cbv zeta. rewrite Hresponse, Hbody. reflexivity.
Qed.



End Pagination.

(** ** Failures of the upstream *)

Section Failures.

Context `{StringToNumber}.

(** C2, amended. When a page request issued by a run is answered with a
    malformed body, a text that is not JSON, the run fails with the parse
    error: nothing is returned, the members accumulated so far included.  No
    call of the routine, however it completes, changes the store.  (The
    status of a response is never read: it takes a malformed body to
    fail.) *)
Theorem fetchAllGuildMembers_malformed_page_aborts
    fuel previousMembers lastUserId w i rq response
    (Hnew : (List.length (sent w) <= i)%nat)
    (Hrequest : sent (snd (fetchAllGuildMembers fuel previousMembers lastUserId w)) !! i
                = Some rq)
    (Hresponse : upstream w
                   (take i (sent (snd (fetchAllGuildMembers fuel previousMembers lastUserId w))))
                   rq = Some response)
    (Hmalformed : JSON_wellformed (body response) = false) :
  fst (fetchAllGuildMembers fuel previousMembers lastUserId w) = Throw SyntaxError
  /\ forall fuel' accumulated cursor w',
       redis (snd (fetchAllGuildMembers fuel' accumulated cursor w')) = redis w'.
Proof.
  apply JSON_parse_malformed in Hmalformed.
  split; [|intros fuel' accumulated cursor w';
           apply (fetchAllGuildMembers_frame fuel' accumulated cursor w')].
  revert previousMembers lastUserId w Hnew Hrequest Hresponse.
  induction fuel as [|fuel IH]; intros previousMembers lastUserId w Hnew Hrequest Hresponse.
  - cbn in Hrequest. apply lookup_lt_Some in Hrequest. lia.
  - rewrite fetchAllGuildMembers_step in *. cbv zeta in *.
    set (rq0 := chunk_request (process_env w) lastUserId) in *.
    assert (Hstop : forall c : completion string,
               sent (snd (c, log_request rq0 w)) !! i = Some rq ->
               upstream w (take i (sent (snd (c, log_request rq0 w)))) rq = Some response ->
               upstream w (sent w) rq0 = Some response).
    { intros c Hi Hu. cbn [snd log_request sent] in Hi, Hu.
      pose proof (lookup_lt_Some _ _ _ Hi) as Hlt.
      rewrite length_app in Hlt. cbn [List.length] in Hlt.
      assert (i = List.length (sent w)) as -> by lia.
      rewrite list_lookup_middle in Hi by reflexivity. injection Hi as <-.
      now rewrite take_app_length in Hu. }
    destruct (upstream w (sent w) rq0) as [response0|] eqn:Hfirst.
    2: { specialize (Hstop _ Hrequest Hresponse). discriminate. }
    destruct (JSON_parse (body response0)) as [newMembers|] eqn:Hbody; [|reflexivity].
    assert (Hparsed : Some response0 <> Some response) by congruence.
    unfold continue_with in *.
    destruct (get (Val newMembers) p_length) as [len| |];
      try (exfalso; exact (Hparsed (Hstop _ Hrequest Hresponse))).
    destruct (above_zero len);
      [|exfalso; exact (Hparsed (Hstop _ Hrequest Hresponse))].
    destruct (spread (Val newMembers)) as [fresh| |];
      try (exfalso; exact (Hparsed (Hstop _ Hrequest Hresponse))).
    destruct (and_then _ _) as [id| |];
      try (exfalso; exact (Hparsed (Hstop _ Hrequest Hresponse))).
    destruct (Nat.eq_dec i (List.length (sent w))) as [->|Hlater].
    + exfalso. apply Hparsed. rewrite <- Hfirst.
      destruct (fetchAllGuildMembers_frame fuel (previousMembers ++ fresh) id (log_request rq0 w))
        as (_ & _ & _ & _ & reqs & Hs).
      cbv zeta in Hs. rewrite Hs in Hrequest, Hresponse. cbn [log_request sent] in *.
      rewrite <- !app_assoc in *. cbn [app] in *.
      rewrite list_lookup_middle in Hrequest by reflexivity. injection Hrequest as <-.
      now rewrite take_app_length in Hresponse.
    + apply IH; try assumption. cbn [log_request sent]. rewrite length_app. cbn. lia.
Qed.

End Failures.

(** ** The membership lookup *)

(** The store without a snapshot: the guard leaves [null] in [parsedResult],
    and [null.find] fails. *)
Lemma isMemberOfGuild_without_snapshot id w :
  redis w !! "discordGuildMembers" = None ->
  isMemberOfGuild id w = (Throw TypeError, log_console [Val JNull; Val JNull] w).
Proof.
  intros Habsent. unfold isMemberOfGuild, bind, redisClient_get.
  rewrite Habsent. reflexivity.
Qed.

(** C8. The lookup writes nothing to the store, whatever it finds there and
    however it completes. *)
Theorem isMemberOfGuild_leaves_store id w :
  redis (snd (isMemberOfGuild id w)) = redis w.
Proof.
  unfold isMemberOfGuild, bind, redisClient_get, console_log, lift, ret.
  destruct (redis w !! "discordGuildMembers") as [s|]; [|reflexivity].
  destruct (truthy (Val (JStr s))).
  - destruct (JSON_parse s) as [v|]; [|reflexivity].
    destruct (Array_find _ _); reflexivity.
  - destruct (Array_find _ _); reflexivity.
Qed.

Lemma find_first_members id members :
  Forall GuildMember members ->
  find_first
    (fun resultItem =>
       and_then (get (Val resultItem) p_user) (fun user =>
       and_then (get user p_id) (fun uid => Normal (strict_eq_string uid id))))
    members
  = Normal (match List.find (has_id id) members with
            | Some m => Val m
            | None => Undefined
            end).
Proof.
  induction 1 as [|m l Hm _ IH]; [reflexivity|].
  cbn [find_first List.find]. unfold has_id at 1. unfold GuildMember, user_id in *.
  destruct (get (Val m) p_user) as [user| |]; cbn [and_then] in *; try congruence.
  destruct (get user p_id) as [[|[| | |s| |]]| |]; cbn [and_then strict_eq_string] in *;
    try congruence.
  destruct (String.eqb s id); [reflexivity | exact IH].
Qed.

Lemma GuildMember_truthy m : GuildMember m -> truthy (Val m) = true.
Proof.
  unfold GuildMember, user_id.
  destruct m as [|b|n|s|items|members]; cbn; try congruence.
  all: destruct s; cbn; congruence.
Qed.

Lemma JSON_stringify_truthy v : truthy (Val (JStr (JSON_stringify v))) = true.
Proof.
  unfold JSON_stringify. destruct (stringify_head v) as (c & t & -> & _). reflexivity.
Qed.

(** The answer against the snapshot of a sequence of GuildMember records. *)
Lemma isMemberOfGuild_of_snapshot w members userId :
  redis w !! "discordGuildMembers" = Some (JSON_stringify (JArr members)) ->
  Forall GuildMember members ->
  fst (isMemberOfGuild userId w) = Normal (existsb (has_id userId) members).
Proof.
  intros Hsnapshot Hrecords.
  unfold isMemberOfGuild, bind, redisClient_get, console_log, lift, ret.
  rewrite Hsnapshot, JSON_stringify_truthy, JSON_parse_stringify.
  cbn [Array_find]. rewrite (find_first_members userId members Hrecords).
  cbn [fst]. f_equal.
  destruct (List.find (has_id userId) members) as [m|] eqn:Hfind.
  - apply find_some in Hfind as [Hin Hid].
    rewrite GuildMember_truthy
      by (rewrite Forall_forall in Hrecords; apply Hrecords; now apply list_elem_of_In).
    symmetry. apply existsb_exists. now exists m.
  - cbn [truthy]. symmetry. apply not_true_is_false. intros Hex.
    apply existsb_exists in Hex as (m & Hin & Hid).
    pose proof (find_none _ _ Hfind m Hin). congruence.
Qed.

Lemma has_id_spec userId m : has_id userId m = true <-> user_id m = Some userId.
Proof.
  unfold has_id. destruct (user_id m) as [s|]; [|split; discriminate].
  rewrite String.eqb_eq. split; congruence.
Qed.

(** C5. Against the snapshot of a sequence of GuildMember records the lookup
    answers [true] exactly when some record of the sequence has the asked
    identifier as its [user.id]. *)
Theorem isMemberOfGuild_iff_listed w members userId
    (Hsnapshot : redis w !! "discordGuildMembers" = Some (JSON_stringify (JArr members)))
    (Hrecords : Forall GuildMember members) :
  exists answer,
    fst (isMemberOfGuild userId w) = Normal answer
    /\ (answer = true <-> exists m, m ∈ members /\ user_id m = Some userId).
Proof.
  exists (existsb (has_id userId) members). split.
  - now apply isMemberOfGuild_of_snapshot.
  - rewrite existsb_exists. split; intros (m & Hin & Hid); exists m.
    + split; [now apply list_elem_of_In | now apply has_id_spec].
    + split; [now apply list_elem_of_In | now apply has_id_spec].
Qed.

(** ** The paging upstream, request by request *)

Lemma append_nil_r (s : string) : (s ++ "")%string = s.
Proof. induction s as [|c s IH]; [reflexivity|]. now rewrite append_String, IH. Qed.

Lemma strip_prefix_app (p t : text) : strip_prefix p (p ++ t) = Some t.
Proof.
  induction p as [|c p IH]; [reflexivity|].
  cbn [app strip_prefix]. now rewrite Ascii.eqb_refl.
Qed.

Lemma user_id_read m s :
  user_id m = Some s ->
  and_then (get (Val m) p_user) (fun user => get user p_id) = Normal (Val (JStr s)).
Proof.
  unfold user_id. destruct (and_then _ _) as [[|[| | |s'| |]]| |]; congruence.
Qed.

Lemma paging_first_request guild pageSize roster e history :
  DISCORD_GUILD_ID e = Some guild ->
  paging_upstream guild pageSize roster history (chunk_request e Undefined)
  = Some (page_response (take pageSize roster)).
Proof.
  intros Hguild. unfold paging_upstream, chunk_request. cbn [url truthy].
  rewrite Hguild. cbn [env_text ToString ToString_json].
  now rewrite append_nil_r, String.eqb_refl.
Qed.

Lemma paging_next_request guild pageSize roster e history s :
  DISCORD_GUILD_ID e = Some guild -> s <> ""%string ->
  paging_upstream guild pageSize roster history (chunk_request e (Val (JStr s)))
  = Some (page_response (take pageSize (members_after s roster))).
Proof.
  intros Hguild Hs. unfold paging_upstream, chunk_request. cbn [url truthy].
  rewrite Hguild. cbn [env_text ToString ToString_json].
  destruct (String.eqb_spec s "") as [|_]; [contradiction|]. cbn [negb].
  destruct (String.eqb_spec (members_url guild ++ "&after=" ++ s) (members_url guild))
    as [Heq|_].
  - exfalso. rewrite <- (append_nil_r (members_url guild)) in Heq at 2.
    apply String.app_inj in Heq. discriminate.
  - rewrite <- string_app_assoc, (chars_app _ s), strip_prefix_app, string_of_chars.
    reflexivity.
Qed.

Lemma members_after_split front m rest s :
  user_id m = Some s ->
  (forall x, x ∈ front -> user_id x <> Some s) ->
  members_after s (front ++ m :: rest) = rest.
Proof.
  intros Hm. induction front as [|x front IH]; intros Hfresh; cbn [app members_after].
  - now rewrite Hm, String.eqb_refl.
  - pose proof (Hfresh x ltac:(left)) as Hx.
    rewrite IH by (intros y Hy; apply Hfresh; now right).
    destruct (user_id x) as [s'|]; [|reflexivity].
    destruct (String.eqb_spec s' s); [congruence | reflexivity].
Qed.

Lemma last_split {A} (l : list A) (x : A) :
  last l = Some x -> exists front, l = front ++ [x].
Proof.
  intros Hlast. destruct l as [|a l] using rev_ind; [discriminate|].
  rewrite last_snoc in Hlast. injection Hlast as ->. now exists l.
Qed.

(** The page the upstream sends for the cursor that goes with the members
    fetched so far: the next [pageSize] of the remaining ones. *)
Lemma paging_answers guild pageSize roster fetched remaining cursor e history :
  DISCORD_GUILD_ID e = Some guild ->
  snowflake_roster roster ->
  roster = fetched ++ remaining ->
  cursor_of fetched cursor ->
  paging_upstream guild pageSize roster history (chunk_request e cursor)
  = Some (page_response (take pageSize remaining)).
Proof.
  intros Hguild [Hdistinct Hids] -> Hcursor. unfold cursor_of in Hcursor.
  destruct (last fetched) as [m|] eqn:Hlast.
  - destruct Hcursor as (s & Hm & ->).
    destruct (last_split _ _ Hlast) as (front & ->).
    rewrite Forall_forall in Hids.
    destruct (Hids m) as (s' & Hs' & Hne).
    { apply list_elem_of_In, in_or_app. left. apply in_or_app. right. now left. }
    assert (s' = s) as -> by congruence.
    rewrite (paging_next_request _ _ _ _ _ _ Hguild Hne).
    rewrite <- app_assoc. cbn [app].
    rewrite (members_after_split front m remaining s Hm); [reflexivity|].
    intros x Hx Heq. rewrite <- app_assoc in Hdistinct. cbn [app] in Hdistinct.
    rewrite map_app in Hdistinct. apply NoDup_app in Hdistinct as (_ & Hdisj & _).
    apply (Hdisj (Some s)).
    + apply list_elem_of_In, in_map_iff. exists x. split; [exact Heq | now apply list_elem_of_In].
    + cbn [List.map]. rewrite Hm. left.
  - subst cursor. apply last_None in Hlast as ->. cbn [app].
    now apply paging_first_request.
Qed.

(** ** A whole run against the paging upstream *)

Lemma ceil_div_bounds a b :
  (0 < b)%nat ->
  (a <= ceil_div a b * b)%nat
  /\ (ceil_div a b <> 0%nat -> (ceil_div a b - 1) * b < a)%nat.
Proof.
  intros Hb. unfold ceil_div.
  pose proof (Nat.div_mod_eq (a + b - 1) b) as Hdiv.
  pose proof (Nat.mod_upper_bound (a + b - 1) b ltac:(lia)) as Hmod.
  split; [nia|]. intros Hq. nia.
Qed.

Lemma length_page_cursors k pageSize remaining :
  List.length (page_cursors k pageSize remaining) = k.
Proof.
  revert remaining. induction k as [|k IH]; intros remaining; [reflexivity|].
  cbn [page_cursors List.length]. now rewrite IH.
Qed.

Lemma log_requests_cons rq rqs w :
  log_requests rqs (log_request rq w) = log_requests (rq :: rqs) w.
Proof.
  unfold log_requests, log_request. cbn. now rewrite <- app_assoc.
Qed.

Section Roster.

Context `{StringToNumber}.

Variables (guild : string) (pageSize : nat) (roster : list json).
Hypothesis Hsize : (0 < pageSize)%nat.
Hypothesis Hroster : snowflake_roster roster.

(** The cursor the loop reads once a non-empty page has been appended. *)
Lemma cursor_after_page fetched page remaining :
  roster = (fetched ++ page) ++ remaining -> page <> [] ->
  and_then (get (last_item (fetched ++ page)) p_user) (fun user => get user p_id)
  = Normal (end_cursor page)
  /\ cursor_of (fetched ++ page) (end_cursor page).
Proof.
  intros Hsplit Hne. destruct (exists_last Hne) as (front & m & ->).
  destruct Hroster as [_ Hids]. rewrite Forall_forall in Hids.
  destruct (Hids m) as (s & Hm & _).
  { rewrite Hsplit. apply list_elem_of_In, in_or_app. left.
    apply in_or_app. right. apply in_or_app. right. now left. }
  unfold last_item, end_cursor, cursor_of.
  rewrite app_assoc, !last_snoc, Hm. split.
  - now apply user_id_read.
  - now exists s.
Qed.

Lemma paging_run k :
  forall fetched remaining cursor w fuel,
    DISCORD_GUILD_ID (process_env w) = Some guild ->
    upstream w = paging_upstream guild pageSize roster ->
    roster = fetched ++ remaining ->
    cursor_of fetched cursor ->
    (List.length remaining <= k * pageSize)%nat ->
    (k <> 0%nat -> (k - 1) * pageSize < List.length remaining)%nat ->
    (k < fuel)%nat ->
    fetchAllGuildMembers fuel fetched cursor w
    = (Normal (JSON_stringify (JArr roster)),
       log_requests
         (List.map (chunk_request (process_env w))
            (cursor :: page_cursors k pageSize remaining))
         w).
Proof.
  induction k as [|k IH]; intros fetched remaining cursor w fuel
    Hguild Hupstream Hsplit Hcursor Hupper Hlower Hfuel;
    (destruct fuel as [|fuel]; [lia|]);
    rewrite fetchAllGuildMembers_step; cbv zeta;
    rewrite Hupstream,
      (paging_answers guild pageSize roster fetched remaining cursor _ _
         Hguild Hroster Hsplit Hcursor);
    unfold page_response; cbn [body]; rewrite JSON_parse_stringify.
  - destruct remaining as [|m remaining]; [|cbn in Hupper; lia].
    rewrite take_nil. rewrite app_nil_r in Hsplit. subst fetched. reflexivity.
  - assert (Hne : take pageSize remaining <> []).
    { intros Hnil. apply take_nil_inv in Hnil as [->| ->]; [lia|].
      cbn in Hlower. specialize (Hlower ltac:(lia)). lia. }
    rewrite continue_with_page by exact Hne.
    assert (Hsplit' : roster = (fetched ++ take pageSize remaining) ++ drop pageSize remaining).
    { now rewrite <- app_assoc, take_drop. }
    destruct (cursor_after_page fetched (take pageSize remaining) (drop pageSize remaining)
                Hsplit' Hne) as [-> Hcursor'].
    rewrite (IH (fetched ++ take pageSize remaining) (drop pageSize remaining)
               (end_cursor (take pageSize remaining))
               (log_request (chunk_request (process_env w) cursor) w) fuel
               Hguild Hupstream Hsplit' Hcursor').
    + now rewrite log_requests_cons.
    + rewrite length_drop. nia.
    + rewrite length_drop. intros Hk. nia.
    + lia.
Qed.

(** Each request of such a run is answered by a page, and the empty page
    is the answer to the last request only. *)
Lemma paging_run_pages k :
  forall fetched remaining cursor e history,
    DISCORD_GUILD_ID e = Some guild ->
    roster = fetched ++ remaining ->
    cursor_of fetched cursor ->
    (List.length remaining <= k * pageSize)%nat ->
    (k <> 0%nat -> (k - 1) * pageSize < List.length remaining)%nat ->
    forall i c,
      (cursor :: page_cursors k pageSize remaining) !! i = Some c ->
      exists page,
        paging_upstream guild pageSize roster history (chunk_request e c)
        = Some (page_response page)
        /\ (page = [] <-> i = k).
Proof.
  induction k as [|k IH]; intros fetched remaining cursor e history
    Hguild Hsplit Hcursor Hupper Hlower i c Hi.
  - destruct i as [|i]; [|discriminate]. injection Hi as <-.
    exists (take pageSize remaining). split.
    + now apply (paging_answers guild pageSize roster fetched remaining).
    + destruct remaining; [now rewrite take_nil | cbn in Hupper; lia].
  - assert (Hne : take pageSize remaining <> []).
    { intros Hnil. apply take_nil_inv in Hnil as [->| ->]; [lia|].
      cbn in Hlower. specialize (Hlower ltac:(lia)). lia. }
    destruct i as [|i].
    + injection Hi as <-. exists (take pageSize remaining). split.
      * now apply (paging_answers guild pageSize roster fetched remaining).
      * split; [contradiction | discriminate].
    + cbn [page_cursors] in Hi.
      assert (Hsplit' : roster = (fetched ++ take pageSize remaining) ++ drop pageSize remaining).
      { now rewrite <- app_assoc, take_drop. }
      destruct (cursor_after_page fetched (take pageSize remaining) (drop pageSize remaining)
                  Hsplit' Hne) as [_ Hcursor'].
      destruct (IH _ _ _ e history Hguild Hsplit' Hcursor'
                  ltac:(rewrite length_drop; nia)
                  ltac:(rewrite length_drop; intros Hk; nia) i c Hi)
        as (page & Hpage & Hlast).
      exists page. split; [exact Hpage|]. rewrite Hlast. lia.
Qed.

End Roster.

Lemma lookup_map {A B} (f : A -> B) (l : list A) (i : nat) :
  List.map f l !! i = f <$> (l !! i).
Proof.
  revert i. induction l as [|x l IH]; intros [|i]; try reflexivity. apply IH.
Qed.

(** C3, amended. Against a roster of [guildSize] snowflakes, canonical
    records that the upstream serves in full pages of [pageSize] members
    (1000 in production; each page holds the next [pageSize] members after
    the cursor, or all that remain), a run started with nothing accumulated
    and no cursor terminates once it has fuel for
    [ceil_div guildSize pageSize + 1] page requests, issues no more than
    that many, and returns the text of the whole roster: [guildSize]
    records, without duplicates, in the order of the upstream.  Every
    request is answered by a page, and the one empty page is the answer to
    the last request. *)
Theorem fetchAllGuildMembers_fetches_whole_roster `{StringToNumber}
    guild pageSize roster guildSize w fuel
    (Hsize : (0 < pageSize)%nat)
    (Hguild : DISCORD_GUILD_ID (process_env w) = Some guild)
    (Hupstream : upstream w = paging_upstream guild pageSize roster)
    (Hroster : snowflake_roster roster)
    (Hrecords : Forall (fun m => canonical m = true) roster)
    (Hcount : List.length roster = guildSize)
    (Hfuel : (ceil_div guildSize pageSize + 1 <= fuel)%nat) :
  exists requests,
    fetchAllGuildMembers fuel [] Undefined w
    = (Normal (JSON_stringify (JArr roster)), log_requests requests w)
    /\ (List.length requests <= ceil_div guildSize pageSize + 1)%nat
    /\ JSON_parse (JSON_stringify (JArr roster)) = Some (JArr roster)
    /\ List.length roster = guildSize
    /\ NoDup roster
    /\ forall i rq,
         requests !! i = Some rq ->
         exists page,
           upstream w (sent w ++ take i requests) rq = Some (page_response page)
           /\ (page = [] <-> S i = List.length requests).
Proof.
  subst guildSize. set (k := ceil_div (List.length roster) pageSize) in *.
  destruct (ceil_div_bounds (List.length roster) pageSize Hsize) as [Hupper Hlower].
  fold k in Hupper, Hlower.
  exists (List.map (chunk_request (process_env w))
            (Undefined :: page_cursors k pageSize roster)).
  assert (Hlen : List.length
                   (List.map (chunk_request (process_env w))
                      (Undefined :: page_cursors k pageSize roster)) = S k).
  { rewrite length_map. cbn [List.length]. now rewrite length_page_cursors. }
  split; [|split; [|split; [|split; [|split]]]].
  - apply (paging_run guild pageSize roster Hsize Hroster k [] roster Undefined w fuel);
      try assumption; try reflexivity. lia.
  - rewrite Hlen. lia.
  - apply JSON_parse_stringify.
  - reflexivity.
  - destruct Hroster as [Hdistinct _]. apply NoDup_ListNoDup.
    apply NoDup_ListNoDup in Hdistinct. now apply NoDup_map_inv in Hdistinct.
  - intros i rq Hi. rewrite Hlen, Hupstream.
    rewrite lookup_map in Hi.
    destruct ((Undefined :: page_cursors k pageSize roster) !! i) as [c|] eqn:Hc;
      [|discriminate].
    injection Hi as <-.
    destruct (paging_run_pages guild pageSize roster Hsize Hroster k [] roster Undefined
                (process_env w) (sent w ++ take i
                   (List.map (chunk_request (process_env w))
                      (Undefined :: page_cursors k pageSize roster)))
                Hguild eq_refl eq_refl Hupper Hlower i c Hc) as (page & Hpage & Hlast).
    exists page. split; [exact Hpage|]. rewrite Hlast. lia.
Qed.

(** ** The numbered rosters *)

Lemma Number_toString_inj a b : Number_toString a = Number_toString b -> a = b.
Proof.
  intros E. apply DecimalZ.to_int_inj.
  pose proof (Number_toString_parses a) as Ha. rewrite E, Number_toString_parses in Ha.
  congruence.
Qed.

Lemma Number_toString_nonempty n : Number_toString n <> ""%string.
Proof.
  intros E. destruct (Number_toString_head n) as (c & t & Hc & _).
  rewrite E in Hc. discriminate.
Qed.

Lemma user_id_member id : user_id (member id) = Some id.
Proof. reflexivity. Qed.

Lemma numbered_roster_ids n :
  List.map user_id (numbered_roster n)
  = List.map (fun k => Some (Number_toString (Z.of_nat k))) (seq 1 n).
Proof. unfold numbered_roster. rewrite map_map. reflexivity. Qed.

Lemma numbered_roster_snowflakes n : snowflake_roster (numbered_roster n).
Proof.
  split.
  - rewrite numbered_roster_ids. apply NoDup_ListNoDup.
    apply Injective_map_NoDup; [|apply seq_NoDup].
    intros a b [= E]. apply Number_toString_inj in E. lia.
  - apply Forall_forall. intros m Hm. apply list_elem_of_In in Hm.
    unfold numbered_roster in Hm. apply in_map_iff in Hm as (k & <- & _).
    eexists. split; [apply user_id_member | apply Number_toString_nonempty].
Qed.

Lemma member_canonical id : canonical (member id) = true.
Proof. reflexivity. Qed.

Lemma numbered_roster_canonical n :
  Forall (fun m => canonical m = true) (numbered_roster n).
Proof.
  apply Forall_forall. intros m Hm. apply list_elem_of_In in Hm.
  unfold numbered_roster in Hm. apply in_map_iff in Hm as (k & <- & _).
  apply member_canonical.
Qed.

Lemma numbered_roster_length n : List.length (numbered_roster n) = n.
Proof. unfold numbered_roster. now rewrite length_map, length_seq. Qed.

Lemma numbered_roster_records n : Forall GuildMember (numbered_roster n).
Proof.
  destruct (numbered_roster_snowflakes n) as [_ Hids].
  eapply Forall_impl; [exact Hids|]. intros m (s & Hs & _). unfold GuildMember. congruence.
Qed.

(** ** The scenario: 2500 members, pages of 1000 *)

Lemma cursors_2500 :
  page_cursors 3 1000 (numbered_roster 2500)
  = [Val (JStr "1000"); Val (JStr "2000"); Val (JStr "2500")].
Proof. vm_compute. reflexivity. Qed.

Lemma run_2500 fuel :
  fetchAllGuildMembers (4 + fuel) [] Undefined guild_2500
  = (Normal (JSON_stringify (JArr (numbered_roster 2500))),
     log_requests
       (List.map (chunk_request example_env)
          [Undefined; Val (JStr "1000"); Val (JStr "2000"); Val (JStr "2500")])
       guild_2500).
Proof.
  rewrite <- cursors_2500.
  apply (paging_run "G" 1000 (numbered_roster 2500) ltac:(lia)
           (numbered_roster_snowflakes 2500) 3 [] (numbered_roster 2500) Undefined
           guild_2500 (4 + fuel)); try reflexivity.
  - rewrite numbered_roster_length. lia.
  - rewrite numbered_roster_length. lia.
  - lia.
Qed.

(** C7, amended. With 2500 members behind pages of 1000 the run issues four
    requests, with the cursors none, ["1000"], ["2000"] and ["2500"]: the
    fourth is answered by the empty page, which is what ends the loop.  The
    text returned is that of the 2500 records, all distinct; once it is
    stored, the lookup of the identifier of the 2500th member answers
    [true]. *)
Theorem scenario_2500_members fuel :
  let run := fetchAllGuildMembers (4 + fuel) [] Undefined guild_2500 in
  fst run = Normal (JSON_stringify (JArr (numbered_roster 2500)))
  /\ List.map url (sent (snd run))
     = ["https://discordapp.com/api/guilds/G/members?limit=1000";
        "https://discordapp.com/api/guilds/G/members?limit=1000&after=1000";
        "https://discordapp.com/api/guilds/G/members?limit=1000&after=2000";
        "https://discordapp.com/api/guilds/G/members?limit=1000&after=2500"]%string
  /\ List.length (numbered_roster 2500) = 2500%nat
  /\ NoDup (numbered_roster 2500)
  /\ fst (isMemberOfGuild "2500"
            (persist (JSON_stringify (JArr (numbered_roster 2500))) (snd run)))
     = Normal true.
Proof.
  cbv zeta. rewrite run_2500. cbn [fst snd].
  split; [reflexivity|]. split; [reflexivity|].
  split; [apply numbered_roster_length|]. split.
  - destruct (numbered_roster_snowflakes 2500) as [Hdistinct _].
    apply NoDup_ListNoDup. apply NoDup_ListNoDup in Hdistinct.
    now apply NoDup_map_inv in Hdistinct.
  - rewrite (isMemberOfGuild_of_snapshot _ (numbered_roster 2500) "2500").
    + vm_compute. reflexivity.
    + cbn [persist redis]. apply lookup_insert_eq.
    + apply numbered_roster_records.
Qed.

(** The run of the scenario does not stop at three requests. *)
Lemma scenario_2500_sends_four_requests :
  fst (fetchAllGuildMembers 4 [] Undefined guild_2500)
  = Normal (JSON_stringify (JArr (numbered_roster 2500)))
  /\ List.length (sent (snd (fetchAllGuildMembers 4 [] Undefined guild_2500))) = 4%nat
  /\ List.length (sent (snd (fetchAllGuildMembers 4 [] Undefined guild_2500))) <> 3%nat.
Proof.
  pose proof (run_2500 0) as Hrun. cbn [Nat.add] in Hrun. rewrite Hrun.
  cbn [fst snd]. split; [reflexivity|]. split; [reflexivity|].
  discriminate.
Qed.

(** ** Concrete runs *)

(** C1. With no snapshot in the store the lookup of ["U1"] throws a
    TypeError instead of answering. *)
Theorem isMemberOfGuild_crashes_without_snapshot :
  isMemberOfGuild "U1" (initial_world example_env (scripted []))
  = (Throw TypeError,
     log_console [Val JNull; Val JNull] (initial_world example_env (scripted []))).
Proof. apply isMemberOfGuild_without_snapshot. reflexivity. Qed.

Lemma fetchAllGuildMembers_page_step_witness :
  let w := initial_world example_env (scripted [page_response [member "2"; member "3"]]) in
  let rq := chunk_request (process_env w) (Val (JStr "1")) in
  plain_cursor (Val (JStr "1")) = true
  /\ Forall (fun m => canonical m = true) [member "1"]
  /\ upstream w (sent w) rq = Some (page_response [member "2"; member "3"])
  /\ JSON_parse (body (page_response [member "2"; member "3"]))
     = Some (JArr [member "2"; member "3"])
  /\ [member "2"; member "3"] = [member "2"] ++ [member "3"]
  /\ get (Val (member "3")) p_user = Normal (Val (JObj [("id", JStr "3")]))
  /\ get (Val (JObj [("id", JStr "3")])) p_id = Normal (Val (JStr "3"))
  /\ fetchAllGuildMembers 2 [member "1"] (Val (JStr "1")) w
     = fetchAllGuildMembers 1 [member "1"; member "2"; member "3"] (Val (JStr "3"))
         (log_request rq w)
  /\ List.map url (sent (snd (fetchAllGuildMembers 2 [member "1"] (Val (JStr "1")) w)))
     = ["https://discordapp.com/api/guilds/G/members?limit=1000&after=1";
        "https://discordapp.com/api/guilds/G/members?limit=1000&after=3"]%string.
Proof.
  cbv zeta.
  assert (Hpage : JSON_parse (body (page_response [member "2"; member "3"]))
                  = Some (JArr [member "2"; member "3"])) by (vm_compute; reflexivity).
  assert (Haccumulated : Forall (fun m => canonical m = true) [member "1"])
    by (repeat constructor).
  split; [reflexivity|]. split; [exact Haccumulated|].
  split; [reflexivity|]. split; [exact Hpage|].
  split; [reflexivity|]. split; [reflexivity|]. split; [reflexivity|].
  split; [|vm_compute; reflexivity].
  apply (proj1 (fetchAllGuildMembers_page_step 1 [member "1"] (Val (JStr "1"))
                  (initial_world example_env
                     (scripted [page_response [member "2"; member "3"]]))
                  (page_response [member "2"; member "3"]) [member "2"; member "3"]
                  eq_refl Haccumulated eq_refl Hpage)
           [member "2"] (member "3") (Val (JObj [("id", JStr "3")])) (Val (JStr "3"))
           eq_refl eq_refl eq_refl).
Defined.

Lemma fetchAllGuildMembers_empty_first_page_witness :
  let w := initial_world example_env (scripted [page_response []]) in
  upstream w (sent w) (chunk_request (process_env w) Undefined) = Some (page_response [])
  /\ JSON_parse (body (page_response [])) = Some (JArr [])
  /\ fetchAllGuildMembers 1 [] Undefined w
     = (Normal "[]"%string, log_request (chunk_request (process_env w) Undefined) w).
Proof.
  cbv zeta. split; [reflexivity|]. split; [vm_compute; reflexivity|].
  apply (fetchAllGuildMembers_empty_first_page 0
           (initial_world example_env (scripted [page_response []])) (page_response []));
    [reflexivity | vm_compute; reflexivity].
Defined.

Lemma fetchAllGuildMembers_exhausted_by_any_lengthless_body_witness :
  let w := log_request (chunk_request example_env Undefined) throttled_world in
  let rq := chunk_request (process_env w) (Val (JStr "2")) in
  let payload := JObj [("message", JStr "You are being rate limited.");
                       ("retry_after", JNum 64); ("global", JBool false)] in
  plain_cursor (Val (JStr "2")) = true
  /\ Forall (fun m => canonical m = true) [member "1"; member "2"]
  /\ upstream w (sent w) rq = Some rate_limited
  /\ JSON_parse (body rate_limited) = Some payload
  /\ get (Val payload) p_length = Normal Undefined
  /\ primitive Undefined = true
  /\ above_zero Undefined = false
  /\ fetchAllGuildMembers 1 [member "1"; member "2"] (Val (JStr "2")) w
     = (Normal (JSON_stringify (JArr [member "1"; member "2"])), log_request rq w).
Proof.
  cbv zeta.
  assert (Haccumulated : Forall (fun m => canonical m = true) [member "1"; member "2"])
    by (repeat constructor).
  split; [reflexivity|]. split; [exact Haccumulated|].
  split; [reflexivity|]. split; [vm_compute; reflexivity|].
  split; [reflexivity|]. split; [reflexivity|]. split; [reflexivity|].
  apply (fetchAllGuildMembers_exhausted_by_any_lengthless_body 0
           [member "1"; member "2"] (Val (JStr "2"))
           (log_request (chunk_request example_env Undefined) throttled_world)
           rate_limited
           (JObj [("message", JStr "You are being rate limited.");
                  ("retry_after", JNum 64); ("global", JBool false)])
           Undefined);
    [reflexivity | exact Haccumulated | reflexivity | vm_compute; reflexivity
    | reflexivity | reflexivity | reflexivity].
Defined.

(** A body that parses to [null], a JSON value that is no sequence, makes
    the run fail. *)
Lemma null_body_fails :
  upstream null_world [chunk_request example_env Undefined]
    (chunk_request example_env (Val (JStr "2")))
  = Some {| status := 200; body := "null" |}
  /\ JSON_parse "null" = Some JNull
  /\ fst (fetchAllGuildMembers 5 [] Undefined null_world) = Throw TypeError.
Proof. vm_compute. repeat split; reflexivity. Qed.

(** A page request answered with status 429 and the rate-limit payload:
    the run does not fail, it returns the members of the pages before. *)
Lemma rate_limit_is_not_a_failure :
  upstream throttled_world [chunk_request example_env Undefined]
    (chunk_request example_env (Val (JStr "2")))
  = Some rate_limited
  /\ status rate_limited = 429
  /\ fst (fetchAllGuildMembers 5 [] Undefined throttled_world)
     = Normal (JSON_stringify (JArr [member "1"; member "2"])).
Proof. vm_compute. repeat split; reflexivity. Qed.

Lemma fetchAllGuildMembers_malformed_page_aborts_witness :
  let run := fetchAllGuildMembers 5 [] Undefined broken_world in
  let rq := chunk_request example_env (Val (JStr "1")) in
  let response := {| status := 502; body := "<html>Bad Gateway</html>" |} in
  (List.length (sent broken_world) <= 1)%nat
  /\ sent (snd run) !! 1%nat = Some rq
  /\ upstream broken_world (take 1 (sent (snd run))) rq = Some response
  /\ JSON_wellformed (body response) = false
  /\ fst run = Throw SyntaxError
  /\ forall fuel' accumulated cursor w',
       redis (snd (fetchAllGuildMembers fuel' accumulated cursor w')) = redis w'.
Proof.
  cbv zeta. split; [cbn; lia|]. split; [vm_compute; reflexivity|].
  split; [vm_compute; reflexivity|]. split; [vm_compute; reflexivity|].
  apply (fetchAllGuildMembers_malformed_page_aborts 5 [] Undefined broken_world 1
           (chunk_request example_env (Val (JStr "1")))
           {| status := 502; body := "<html>Bad Gateway</html>" |});
    [cbn; lia | vm_compute; reflexivity | vm_compute; reflexivity | vm_compute; reflexivity].
Defined.


Lemma fetchAllGuildMembers_fetches_whole_roster_witness :
  let w := initial_world example_env (paging_upstream "G" 1000 (numbered_roster 3)) in
  (0 < 1000)%nat
  /\ DISCORD_GUILD_ID (process_env w) = Some "G"%string
  /\ upstream w = paging_upstream "G" 1000 (numbered_roster 3)
  /\ snowflake_roster (numbered_roster 3)
  /\ Forall (fun m => canonical m = true) (numbered_roster 3)
  /\ List.length (numbered_roster 3) = 3%nat
  /\ (ceil_div 3 1000 + 1 <= 2)%nat
  /\ exists requests,
       fetchAllGuildMembers 2 [] Undefined w
       = (Normal (JSON_stringify (JArr (numbered_roster 3))), log_requests requests w)
       /\ (List.length requests <= ceil_div 3 1000 + 1)%nat
       /\ JSON_parse (JSON_stringify (JArr (numbered_roster 3)))
          = Some (JArr (numbered_roster 3))
       /\ List.length (numbered_roster 3) = 3%nat
       /\ NoDup (numbered_roster 3)
       /\ forall i rq,
            requests !! i = Some rq ->
            exists page,
              upstream w (sent w ++ take i requests) rq = Some (page_response page)
              /\ (page = [] <-> S i = List.length requests).
Proof.
  cbv zeta. split; [lia|]. split; [reflexivity|]. split; [reflexivity|].
  split; [apply numbered_roster_snowflakes|].
  split; [apply numbered_roster_canonical|]. split; [reflexivity|].
  split; [vm_compute; lia|].
  apply (fetchAllGuildMembers_fetches_whole_roster "G" 1000 (numbered_roster 3) 3
           (initial_world example_env (paging_upstream "G" 1000 (numbered_roster 3))) 2);
    [lia | reflexivity | reflexivity | apply numbered_roster_snowflakes
    | apply numbered_roster_canonical | reflexivity | vm_compute; lia].
Defined.

(** Two members served in pages of one: no page has more than 1000
    elements and the run returns both members, but it takes three requests,
    where [ceil_div 2 1000 + 1] is two. *)
Lemma short_pages_need_more_requests :
  let run := fetchAllGuildMembers 3 [] Undefined short_pages_world in
  upstream short_pages_world
  = scripted [page_response [member "1"]; page_response [member "2"]; page_response []]
  /\ fst run = Normal (JSON_stringify (JArr [member "1"; member "2"]))
  /\ List.length (sent (snd run)) = 3%nat
  /\ (ceil_div 2 1000 + 1 < List.length (sent (snd run)))%nat.
Proof. vm_compute. repeat split; reflexivity || lia. Qed.

Lemma isMemberOfGuild_iff_listed_witness :
  redis U1_world !! "discordGuildMembers" = Some (JSON_stringify (JArr [member "U1"]))
  /\ Forall GuildMember [member "U1"]
  /\ exists answer,
       fst (isMemberOfGuild "U1" U1_world) = Normal answer
       /\ (answer = true <-> exists m, m ∈ [member "U1"] /\ user_id m = Some "U1"%string).
Proof.
  assert (Hrecords : Forall GuildMember [member "U1"]).
  { repeat constructor. discriminate. }
  split; [apply lookup_insert_eq|]. split; [exact Hrecords|].
  apply (isMemberOfGuild_iff_listed U1_world [member "U1"] "U1");
    [apply lookup_insert_eq | exact Hrecords].
Defined.

(** The example of the specification: the snapshot lists ["U1"] and not
    ["U2"]. *)
Example isMemberOfGuild_U1_U2 :
  fst (isMemberOfGuild "U1" U1_world) = Normal true
  /\ fst (isMemberOfGuild "U2" U1_world) = Normal false.
Proof. split; vm_compute; reflexivity. Qed.

(** * Further properties of the routines *)

(** ** The requests of a run *)

Lemma chunk_request_shape e cursor : page_request_of e (chunk_request e cursor).
Proof.
  unfold page_request_of, chunk_request. cbn [url Authorization]. split; [reflexivity|].
  destruct (truthy cursor).
  - right. now exists (ToString cursor).
  - left. apply append_nil_r.
Qed.

Section RunLog.

Context `{StringToNumber}.

Lemma fetchAllGuildMembers_cursors fuel previousMembers lastUserId w :
  exists cursors,
    sent (snd (fetchAllGuildMembers fuel previousMembers lastUserId w))
    = sent w ++ List.map (chunk_request (process_env w)) cursors
    /\ (List.length cursors <= fuel)%nat
    /\ (fuel <> 0%nat -> exists rest, cursors = lastUserId :: rest).
Proof.
  revert previousMembers lastUserId w.
  induction fuel as [|fuel IH]; intros previousMembers lastUserId w.
  - exists []. cbn. rewrite app_nil_r. repeat split; [lia | congruence].
  - rewrite fetchAllGuildMembers_step. cbv zeta.
    set (rq := chunk_request (process_env w) lastUserId).
    assert (Hstop : forall c : completion string,
               exists cursors,
                 sent (snd (c, log_request rq w))
                 = sent w ++ List.map (chunk_request (process_env w)) cursors
                 /\ (List.length cursors <= S fuel)%nat
                 /\ (S fuel <> 0%nat -> exists rest, cursors = lastUserId :: rest)).
    { intros c. exists [lastUserId]. cbn. repeat split; [lia | now exists []]. }
    destruct (upstream w (sent w) rq) as [response|]; [|apply Hstop].
    destruct (JSON_parse (body response)) as [newMembers|]; [|apply Hstop].
    unfold continue_with.
    destruct (get (Val newMembers) p_length) as [len| |]; try apply Hstop.
    destruct (above_zero len); [|apply Hstop].
    destruct (spread (Val newMembers)) as [fresh| |]; try apply Hstop.
    destruct (and_then _ _) as [id| |]; try apply Hstop.
    destruct (IH (previousMembers ++ fresh) id (log_request rq w)) as (cursors & Hs & Hlen & _).
    exists (lastUserId :: cursors). rewrite Hs. cbn [log_request sent process_env List.map].
    rewrite <- app_assoc. cbn [app List.length]. repeat split; [lia | now exists cursors].
Qed.

(** X1. A run changes nothing but the request log: the environment, the
    store and the console are as before.  The requests it appends all ask
    the members endpoint of the configured guild for 1000 members with the
    bot token in the header, and the first of them, the request of the
    cursor the run was called with, is sent before anything can fail. *)
Theorem fetchAllGuildMembers_only_sends_page_requests fuel previousMembers lastUserId w
    (Hcursor : plain_cursor lastUserId = true) :
  let w' := snd (fetchAllGuildMembers (S fuel) previousMembers lastUserId w) in
  process_env w' = process_env w /\ upstream w' = upstream w
  /\ redis w' = redis w /\ console w' = console w
  /\ exists requests,
       sent w' = sent w ++ chunk_request (process_env w) lastUserId :: requests
       /\ Forall (page_request_of (process_env w)) requests.
Proof.
  cbv zeta.
  destruct (fetchAllGuildMembers_frame (S fuel) previousMembers lastUserId w)
    as (He & Hu & Hr & Hc & _).
  repeat split; try assumption.
  destruct (fetchAllGuildMembers_cursors (S fuel) previousMembers lastUserId w)
    as (cursors & Hs & _ & Hfirst).
  destruct (Hfirst ltac:(discriminate)) as (rest & ->).
  exists (List.map (chunk_request (process_env w)) rest). split; [exact Hs|].
  apply Forall_forall. intros rq Hin. apply list_elem_of_In, in_map_iff in Hin as (c & <- & _).
  apply chunk_request_shape.
Qed.

(** X2. The routine has no bound of its own: against an upstream that never
    answers with an empty page it does not return, however many page
    requests it is allowed; each unit of fuel is spent on one more
    request. *)
Theorem fetchAllGuildMembers_never_returns fuel previousMembers lastUserId w
    (Hcursor : plain_cursor lastUserId = true)
    (Hupstream : never_exhausted (upstream w)) :
  fst (fetchAllGuildMembers fuel previousMembers lastUserId w) = OutOfFuel
  /\ List.length (sent (snd (fetchAllGuildMembers fuel previousMembers lastUserId w)))
     = (List.length (sent w) + fuel)%nat.
Proof.
  clear Hcursor. revert previousMembers lastUserId w Hupstream.
  induction fuel as [|fuel IH]; intros previousMembers lastUserId w Hupstream.
  - cbn. split; [reflexivity | lia].
  - rewrite fetchAllGuildMembers_step. cbv zeta.
    destruct (Hupstream (sent w) (chunk_request (process_env w) lastUserId))
      as (response & page & -> & -> & Hne & Hrecords).
    rewrite continue_with_page by exact Hne.
    destruct (last_item_app previousMembers page Hne) as (m & -> & Hin).
    rewrite Forall_forall in Hrecords.
    destruct (user_id m) as [s|] eqn:Hid; [|now destruct (Hrecords m Hin)].
    rewrite (user_id_read m s Hid).
    destruct (IH (previousMembers ++ page) (Val (JStr s))
                (log_request (chunk_request (process_env w) lastUserId) w) Hupstream)
      as [-> ->].
    split; [reflexivity|]. cbn [log_request sent]. rewrite length_app. cbn. lia.
Qed.

End RunLog.

(** ** A run seen from one of its requests *)

Section Resume.

Context `{StringToNumber}.

(** The run from the moment it sends its request number [i]: the log holds
    the requests before it, and what follows is a run of its own. *)
Lemma fetchAllGuildMembers_resume fuel previousMembers lastUserId w i rq :
  (List.length (sent w) <= i)%nat ->
  sent (snd (fetchAllGuildMembers fuel previousMembers lastUserId w)) !! i = Some rq ->
  exists fuel' accumulated cursor w1,
    fetchAllGuildMembers fuel previousMembers lastUserId w
    = fetchAllGuildMembers (S fuel') accumulated cursor w1
    /\ rq = chunk_request (process_env w1) cursor
    /\ sent w1 = take i (sent (snd (fetchAllGuildMembers fuel previousMembers lastUserId w)))
    /\ upstream w1 = upstream w.
Proof.
  revert previousMembers lastUserId w.
  induction fuel as [|fuel IH]; intros previousMembers lastUserId w Hnew Hrequest.
  - cbn in Hrequest. apply lookup_lt_Some in Hrequest. lia.
  - destruct (Nat.eq_dec i (List.length (sent w))) as [->|Hlater].
    + exists fuel, previousMembers, lastUserId, w.
      destruct (fetchAllGuildMembers_cursors (S fuel) previousMembers lastUserId w)
        as (cursors & Hs & _ & Hfirst).
      destruct (Hfirst ltac:(discriminate)) as (rest & ->).
      rewrite Hs in Hrequest |- *. cbn [List.map] in *.
      rewrite list_lookup_middle in Hrequest by reflexivity. injection Hrequest as <-.
      rewrite take_app_length. repeat split; reflexivity.
    + assert (Hstop : forall c : completion string,
                 sent (snd (c, log_request (chunk_request (process_env w) lastUserId) w)) !! i
                 = Some rq -> False).
      { intros c Hi. cbn [snd log_request sent] in Hi.
        apply lookup_lt_Some in Hi. rewrite length_app in Hi. cbn in Hi. lia. }
      rewrite fetchAllGuildMembers_step in *. cbv zeta in *.
      destruct (upstream w (sent w) _) as [response|]; [|now apply Hstop in Hrequest].
      destruct (JSON_parse (body response)) as [newMembers|];
        [|now apply Hstop in Hrequest].
      unfold continue_with in *.
      destruct (get (Val newMembers) p_length) as [len| |];
        try (now apply Hstop in Hrequest).
      destruct (above_zero len); [|now apply Hstop in Hrequest].
      destruct (spread (Val newMembers)) as [fresh| |];
        try (now apply Hstop in Hrequest).
      destruct (and_then _ _) as [id| |]; try (now apply Hstop in Hrequest).
      assert (Hnew' : (List.length
                         (sent (log_request (chunk_request (process_env w) lastUserId) w))
                       <= i)%nat).
      { cbn [log_request sent]. rewrite length_app. cbn. lia. }
      destruct (IH _ _ _ Hnew' Hrequest)
        as (fuel' & accumulated & cursor & w1 & Hrun & Hrq & Hsent & Hupstream).
      now exists fuel', accumulated, cursor, w1.
Qed.

(** X3. A page request that is rejected (no response at all) makes the whole
    run fail with that rejection: the members accumulated from the pages
    before are not returned. *)
Theorem fetchAllGuildMembers_rejected_request_aborts
    fuel previousMembers lastUserId w i rq
    (Hnew : (List.length (sent w) <= i)%nat)
    (Hrequest : sent (snd (fetchAllGuildMembers fuel previousMembers lastUserId w)) !! i
                = Some rq)
    (Hrejected : upstream w
                   (take i (sent (snd (fetchAllGuildMembers fuel previousMembers lastUserId w))))
                   rq = None) :
  fst (fetchAllGuildMembers fuel previousMembers lastUserId w) = Throw NetworkError.
Proof.
  destruct (fetchAllGuildMembers_resume _ _ _ _ _ _ Hnew Hrequest)
    as (fuel' & accumulated & cursor & w1 & Hrun & -> & Hsent & Hupstream).
  rewrite <- Hsent, <- Hupstream in Hrejected.
  rewrite Hrun, fetchAllGuildMembers_step. cbv zeta. now rewrite Hrejected.
Qed.


End Resume.

(** ** What a successful run returns *)

Section Returns.

Context `{StringToNumber}.

Lemma spread_of_array (v : jsval) len fresh :
  get v p_length = Normal len -> spread v = Normal fresh ->
  (exists items, v = Val (JArr items) /\ fresh = items)
  \/ (exists s, v = Val (JStr s)).
Proof.
  destruct v as [|[|b|n|s|items|members]]; cbn [get spread]; try discriminate.
  - intros _ _. right. now exists s.
  - intros _ [= <-]. left. now exists items.
Qed.

Lemma fetchAllGuildMembers_extension fuel previousMembers lastUserId w text :
  fst (fetchAllGuildMembers fuel previousMembers lastUserId w) = Normal text ->
  exists extra, text = JSON_stringify (JArr (previousMembers ++ extra)).
Proof.
  revert previousMembers lastUserId w.
  induction fuel as [|fuel IH]; intros previousMembers lastUserId w; [discriminate|].
  rewrite fetchAllGuildMembers_step. cbv zeta.
  destruct (upstream w (sent w) _) as [response|]; [|discriminate].
  destruct (JSON_parse (body response)) as [newMembers|]; [|discriminate].
  unfold continue_with.
  destruct (get (Val newMembers) p_length) as [len| |]; try discriminate.
  destruct (above_zero len).
  - destruct (spread (Val newMembers)) as [fresh| |]; try discriminate.
    destruct (and_then _ _) as [id| |]; try discriminate.
    intros Hrun. destruct (IH _ _ _ Hrun) as (extra & ->).
    exists (fresh ++ extra). now rewrite app_assoc.
  - intros [= <-]. exists []. now rewrite app_nil_r.
Qed.

(** X5. Whatever the upstream sends, a run that returns does return the text
    of a JSON array, and that array starts with the members the caller
    passed in: [JSON.parse] reads it back. *)
Theorem fetchAllGuildMembers_returns_an_array fuel previousMembers lastUserId w text
    (Hrun : fst (fetchAllGuildMembers fuel previousMembers lastUserId w) = Normal text) :
  exists extra,
    text = JSON_stringify (JArr (previousMembers ++ extra))
    /\ JSON_parse text = Some (JArr (previousMembers ++ extra)).
Proof.
  destruct (fetchAllGuildMembers_extension _ _ _ _ _ Hrun) as (extra & ->).
  exists extra. split; [reflexivity | apply JSON_parse_stringify].
Qed.

End Returns.

(** ** More on the lookup *)

Lemma has_user_predicate id m :
  has_user m ->
  and_then (get (Val m) p_user) (fun user =>
  and_then (get user p_id) (fun uid => Normal (strict_eq_string uid id)))
  = Normal (has_id id m).
Proof.
  intros (fields & Huser). unfold has_id, user_id. rewrite Huser. cbn [and_then get].
  destruct (own_property (prop_name p_id) fields) as [|[|b|n|s|items|members]]; reflexivity.
Qed.

Lemma has_user_truthy m : has_user m -> truthy (Val m) = true.
Proof.
  intros (fields & Huser).
  destruct m as [|b|n|s|items|members]; cbn in Huser; try discriminate; reflexivity.
Qed.

(** The scan of [find] over records that have a [user] object, followed by
    anything. *)
Lemma find_first_has_user id front rest :
  Forall has_user front ->
  find_first
    (fun resultItem =>
       and_then (get (Val resultItem) p_user) (fun user =>
       and_then (get user p_id) (fun uid => Normal (strict_eq_string uid id))))
    (front ++ rest)
  = match List.find (has_id id) front with
    | Some m => Normal (Val m)
    | None =>
        find_first
          (fun resultItem =>
             and_then (get (Val resultItem) p_user) (fun user =>
             and_then (get user p_id) (fun uid => Normal (strict_eq_string uid id))))
          rest
    end.
Proof.
  induction 1 as [|m front Hm _ IH]; [reflexivity|].
  cbn [app find_first List.find]. rewrite (has_user_predicate id m Hm).
  destruct (has_id id m); [reflexivity | exact IH].
Qed.

Lemma isMemberOfGuild_scan w members userId :
  redis w !! "discordGuildMembers" = Some (JSON_stringify (JArr members)) ->
  isMemberOfGuild userId w
  = (and_then
       (find_first
          (fun resultItem =>
             and_then (get (Val resultItem) p_user) (fun user =>
             and_then (get user p_id) (fun uid => Normal (strict_eq_string uid userId))))
          members)
       (fun matchingUser => Normal (truthy matchingUser)),
     log_console
       [Val (JArr members); Val (JStr (JSON_stringify (JArr members)))] w).
Proof.
  intros Hsnapshot.
  unfold isMemberOfGuild, bind, redisClient_get, console_log, lift, ret.
  rewrite Hsnapshot, JSON_stringify_truthy, JSON_parse_stringify.
  cbn [Array_find]. destruct (find_first _ members); reflexivity.
Qed.

(** X6. On records that merely carry a [user] object the lookup still
    answers: a record whose [user.id] is missing or is not a string (a
    number, say) is passed over, it never matches and never makes the lookup
    fail. *)
Theorem isMemberOfGuild_strict_on_user_objects w members userId
    (Hsnapshot : redis w !! "discordGuildMembers" = Some (JSON_stringify (JArr members)))
    (Hrecords : Forall has_user members) :
  exists answer,
    fst (isMemberOfGuild userId w) = Normal answer
    /\ (answer = true <-> exists m, m ∈ members /\ user_id m = Some userId).
Proof.
  rewrite (isMemberOfGuild_scan w members userId Hsnapshot). cbn [fst].
  pose proof (find_first_has_user userId members [] Hrecords) as Hscan.
  rewrite app_nil_r in Hscan. rewrite Hscan.
  destruct (List.find (has_id userId) members) as [m|] eqn:Hfind; cbn [and_then find_first].
  - apply find_some in Hfind as [Hin Hid]. eexists. split; [reflexivity|].
    rewrite has_user_truthy
      by (rewrite Forall_forall in Hrecords; apply Hrecords; now apply list_elem_of_In).
    split; [|reflexivity]. intros _. exists m.
    split; [now apply list_elem_of_In | now apply has_id_spec].
  - eexists. split; [reflexivity|]. cbn [truthy]. split; [discriminate|].
    intros (m & Hin & Hid). apply list_elem_of_In in Hin.
    pose proof (find_none _ _ Hfind m Hin) as Hno.
    apply has_id_spec in Hid. congruence.
Qed.

(** X7. The scan stops at the first record that matches: whatever follows it
    in the snapshot, records or not, is never read. *)
Theorem isMemberOfGuild_stops_at_first_match w front rest userId
    (Hsnapshot : redis w !! "discordGuildMembers"
                 = Some (JSON_stringify (JArr (front ++ rest))))
    (Hrecords : Forall has_user front)
    (Hlisted : existsb (has_id userId) front = true) :
  fst (isMemberOfGuild userId w) = Normal true.
Proof.
  rewrite (isMemberOfGuild_scan w (front ++ rest) userId Hsnapshot). cbn [fst].
  rewrite (find_first_has_user userId front rest Hrecords).
  destruct (List.find (has_id userId) front) as [m|] eqn:Hfind.
  - apply find_some in Hfind as [Hin _]. cbn [and_then]. f_equal.
    apply has_user_truthy. rewrite Forall_forall in Hrecords.
    apply Hrecords. now apply list_elem_of_In.
  - apply existsb_exists in Hlisted as (m & Hin & Hid).
    pose proof (find_none _ _ Hfind m Hin). congruence.
Qed.

(** X8. An entry of the snapshot on which [resultItem.user.id] cannot be
    read ([null], a record without [user]) makes the lookup fail when the
    scan reaches it, that is when no record before it matches, even if the
    identifier is listed further on. *)
Theorem isMemberOfGuild_fails_on_unreadable_entry w front entry rest userId
    (Hsnapshot : redis w !! "discordGuildMembers"
                 = Some (JSON_stringify (JArr (front ++ entry :: rest))))
    (Hrecords : Forall has_user front)
    (Hunlisted : existsb (has_id userId) front = false)
    (Hentry : unreadable entry) :
  fst (isMemberOfGuild userId w) = Throw TypeError.
Proof.
  rewrite (isMemberOfGuild_scan w _ userId Hsnapshot). cbn [fst].
  rewrite (find_first_has_user userId front (entry :: rest) Hrecords).
  destruct (List.find (has_id userId) front) as [m|] eqn:Hfind.
  - apply find_some in Hfind as [Hin Hid].
    assert (existsb (has_id userId) front = true) by (apply existsb_exists; now exists m).
    congruence.
  - cbn [find_first]. unfold unreadable in Hentry.
    destruct (get (Val entry) p_user) as [user| |]; cbn [and_then] in *; try congruence.
    destruct (get user p_id) as [uid| |]; cbn [and_then] in *; congruence.
Qed.

(** X9. A stored value that is not valid JSON makes the lookup fail with the
    parse error before anything is written to the console: the world is
    untouched. *)
Theorem isMemberOfGuild_malformed_snapshot w stored userId
    (Hstored : redis w !! "discordGuildMembers" = Some stored)
    (Hnonempty : stored <> ""%string)
    (Hmalformed : JSON_wellformed stored = false) :
  isMemberOfGuild userId w = (Throw SyntaxError, w).
Proof.
  apply JSON_parse_malformed in Hmalformed.
  unfold isMemberOfGuild, bind, redisClient_get, lift.
  rewrite Hstored. cbn [truthy].
  destruct (String.eqb_spec stored ""); [contradiction|]. cbn [negb].
  now rewrite Hmalformed.
Qed.

(** X10. A stored value that is the empty string, or the text of a JSON
    value that is not an array ([null], an object, a number, a string),
    makes the lookup fail with a TypeError: only an array has [find]. *)
Theorem isMemberOfGuild_needs_an_array w stored userId
    (Hstored : redis w !! "discordGuildMembers" = Some stored)
    (Hkind : stored = ""%string
             \/ exists v, JSON_parse stored = Some v /\ forall items, v <> JArr items) :
  fst (isMemberOfGuild userId w) = Throw TypeError.
Proof.
  unfold isMemberOfGuild, bind, redisClient_get, console_log, lift, ret.
  rewrite Hstored. destruct Hkind as [->|(v & Hparse & Hkind)]; [reflexivity|].
  cbn [truthy]. destruct (String.eqb stored ""); cbn [negb]; [reflexivity|].
  rewrite Hparse.
  destruct v as [|b|n|s|items|members]; try reflexivity. now destruct (Hkind items).
Qed.

(** X11. The one effect of a lookup against a snapshot: a console line that
    carries the whole parsed roster and the raw text of the snapshot.  No
    request is sent, the environment and the store stay as they are. *)
Theorem isMemberOfGuild_prints_the_roster w members userId
    (Hsnapshot : redis w !! "discordGuildMembers" = Some (JSON_stringify (JArr members))) :
  snd (isMemberOfGuild userId w)
  = log_console [Val (JArr members); Val (JStr (JSON_stringify (JArr members)))] w
  /\ sent (snd (isMemberOfGuild userId w)) = sent w
  /\ List.length (console (snd (isMemberOfGuild userId w)))
     = S (List.length (console w)).
Proof.
  rewrite (isMemberOfGuild_scan w members userId Hsnapshot). cbn [snd log_console sent console].
  repeat split. rewrite length_app. cbn. lia.
Qed.

(** ** Fetching, storing, looking up *)

Lemma scripted_pages_serve_GuildMembers pages :
  Forall (Forall GuildMember) pages ->
  serves_GuildMember_pages (scripted (List.map page_response pages)).
Proof.
  intros Hpages history rq response v Hresponse Hbody. unfold scripted in Hresponse.
  rewrite lookup_map in Hresponse.
  destruct (pages !! List.length history) as [page|] eqn:Hpage; [|discriminate].
  injection Hresponse as <-. cbn [page_response body] in Hbody.
  rewrite JSON_parse_stringify in Hbody. injection Hbody as <-.
  exists page. split; [reflexivity|].
  rewrite Forall_forall in Hpages. apply Hpages.
  apply list_elem_of_lookup. now exists (List.length history).
Qed.

Lemma served_GuildMembers u requests :
  serves_GuildMember_pages u ->
  forall history, Forall GuildMember (served u history requests).
Proof.
  intros Hupstream. induction requests as [|rq requests IH]; intros history.
  - apply Forall_nil. exact I.
  - cbn [served]. apply Forall_app. split; [|apply IH].
    unfold page_of.
    destruct (u history rq) as [response|] eqn:Hresponse; [|apply Forall_nil; exact I].
    destruct (JSON_parse (body response)) as [v|] eqn:Hbody; [|apply Forall_nil; exact I].
    destruct (Hupstream _ _ _ _ Hresponse Hbody) as (page & -> & Hpage). exact Hpage.
Qed.

(** What a run returns is what it was passed followed by the pages it was
    served. *)
Lemma fetchAllGuildMembers_returns_served `{StringToNumber}
    fuel previousMembers lastUserId w text :
  serves_GuildMember_pages (upstream w) ->
  fst (fetchAllGuildMembers fuel previousMembers lastUserId w) = Normal text ->
  exists requests,
    sent (snd (fetchAllGuildMembers fuel previousMembers lastUserId w)) = sent w ++ requests
    /\ text = JSON_stringify
                (JArr (previousMembers ++ served (upstream w) (sent w) requests)).
Proof.
  revert previousMembers lastUserId w.
  induction fuel as [|fuel IH]; intros previousMembers lastUserId w Hupstream;
    [discriminate|].
  rewrite fetchAllGuildMembers_step. cbv zeta.
  set (rq := chunk_request (process_env w) lastUserId).
  destruct (upstream w (sent w) rq) as [response|] eqn:Hresponse; [|discriminate].
  destruct (JSON_parse (body response)) as [newMembers|] eqn:Hbody; [|discriminate].
  destruct (Hupstream _ _ _ _ Hresponse Hbody) as (page & -> & Hpage).
  assert (Hserved : page_of (upstream w) (sent w) rq = page).
  { unfold page_of. now rewrite Hresponse, Hbody. }
  destruct page as [|m page].
  - intros [= <-]. exists [rq]. split; [reflexivity|].
    cbn [served]. rewrite Hserved. cbn [app]. now rewrite app_nil_r.
  - rewrite continue_with_page by discriminate.
    destruct (and_then _ _) as [id| |]; try discriminate.
    intros Hrun.
    destruct (IH (previousMembers ++ m :: page) id (log_request rq w) Hupstream Hrun)
      as (requests & Hsent & ->).
    exists (rq :: requests). split.
    + rewrite Hsent. cbn [log_request sent]. now rewrite <- app_assoc.
    + cbn [served log_request sent upstream]. rewrite Hserved. now rewrite <- app_assoc.
Qed.

(** X12. The two routines compose: when the upstream serves pages of
    GuildMember records, the text a run returns, once stored under the
    snapshot key, makes the lookup answer for every identifier, and the
    answer is [true] exactly for the identifiers of the members passed in
    and of the members of the pages that the requests of the run were
    answered with. *)
Theorem fetch_persist_lookup `{StringToNumber}
    fuel previousMembers lastUserId w snapshot
    (Hcursor : plain_cursor lastUserId = true)
    (Hupstream : serves_GuildMember_pages (upstream w))
    (Hprevious : Forall GuildMember previousMembers)
    (Hrun : fst (fetchAllGuildMembers fuel previousMembers lastUserId w) = Normal snapshot) :
  exists requests,
    sent (snd (fetchAllGuildMembers fuel previousMembers lastUserId w)) = sent w ++ requests
    /\ forall userId,
         fst (isMemberOfGuild userId
                (persist snapshot
                   (snd (fetchAllGuildMembers fuel previousMembers lastUserId w))))
         = Normal (existsb (has_id userId)
                     (previousMembers ++ served (upstream w) (sent w) requests)).
Proof.
  destruct (fetchAllGuildMembers_returns_served _ _ _ _ _ Hupstream Hrun)
    as (requests & Hsent & ->).
  exists requests. split; [exact Hsent|]. intros userId.
  apply isMemberOfGuild_of_snapshot.
  - cbn [persist redis]. apply lookup_insert_eq.
  - apply Forall_app. split; [exact Hprevious | now apply served_GuildMembers].
Qed.

(** ** The account page *)

Section AccountPageProperties.

Context `{StringAtLeastOne}.

Lemma guild_scan guilds :
  Forall (fun g => g <> JNull) guilds ->
  AccountPage.some_first
    (fun discordGuild =>
       and_then (get (Val discordGuild) p_id) (fun gid =>
       Normal (strict_eq_string gid AccountPage.matchingDiscordId)))
    guilds
  = Normal
      (existsb
         (fun g =>
            match get (Val g) p_id with
            | Normal gid => strict_eq_string gid AccountPage.matchingDiscordId
            | _ => false
            end)
         guilds).
Proof.
  induction 1 as [|g guilds Hg _ IH]; [reflexivity|].
  cbn [AccountPage.some_first existsb].
  destruct g as [|b|n|s|items|members]; try contradiction;
    try (destruct p_id; cbn [get and_then strict_eq_string orb]; exact IH).
  cbn [get and_then].
  destruct (strict_eq_string _ _); [reflexivity | exact IH].
Qed.

(** X13. On a list of guilds (no element of which is [null]) the page finds
    the user joined exactly when some guild of the list has the identifier
    of the shop's guild as its [id], a string; on the empty list the answer
    is no. *)
Theorem hasJoinedDiscord_iff_guild_listed guilds
    (Hguilds : Forall (fun g => g <> JNull) guilds) :
  exists joined,
    AccountPage.hasJoinedDiscord (Val (JArr guilds)) = Normal joined
    /\ (joined = true
        <-> exists g, g ∈ guilds
                      /\ get (Val g) p_id = Normal (Val (JStr AccountPage.matchingDiscordId))).
Proof.
  unfold AccountPage.hasJoinedDiscord.
  change (get (Val (JArr guilds)) p_length)
    with (@Normal jsval (Val (JNum (Z.of_nat (List.length guilds))))).
  cbn [and_then AccountPage.at_least_one].
  destruct (Z.leb 1 (Z.of_nat (List.length guilds))) eqn:Hlen.
  2: { apply Z.leb_gt in Hlen. destruct guilds; [|cbn [List.length] in Hlen; lia].
       exists false. split; [reflexivity|]. split; [discriminate|].
       intros (g & Hin & _). inversion Hin. }
  cbn [AccountPage.Array_some]. rewrite (guild_scan guilds Hguilds).
    eexists. split; [reflexivity|]. rewrite existsb_exists.
    split.
    + intros (g & Hin & Hid). exists g. split; [now apply list_elem_of_In|].
      destruct (get (Val g) p_id) as [[|[|b|n|s|items|members]]| |]; try discriminate.
      cbn [strict_eq_string] in Hid. apply String.eqb_eq in Hid. now subst.
    + intros (g & Hin & Hid). exists g. split; [now apply list_elem_of_In|].
      rewrite Hid. cbn [strict_eq_string]. apply String.eqb_refl.
Qed.

(** X14. The loader does not look at the status of the answer, and the page
    does not look at its shape: when Discord answers with an error object
    (no [length] member), whatever the status, the loader returns it as
    [result] and the page says the user is not a member; nothing fails. *)
Theorem account_page_takes_an_error_for_no
    {User : Type} (user : User) discordProfile w response fields
    (Hresponse : upstream w (sent w) (AccountPage.guilds_request discordProfile)
                 = Some response)
    (Hbody : JSON_parse (body response) = Some (JObj fields))
    (Hlength : own_property "length" fields = Undefined) :
  fst (AccountPage.loader user discordProfile w)
  = Normal {| AccountPage.user := user;
              AccountPage.discordProfile := discordProfile;
              AccountPage.result := Val (JObj fields) |}
  /\ AccountPage.membership_sentence (Val (JObj fields))
     = Normal "You are not a member of our Discord"%string.
Proof.
  split.
  - unfold AccountPage.loader, bind, fetch, Response_json, lift, ret.
    fold (AccountPage.guilds_request discordProfile). now rewrite Hresponse, Hbody.
  - unfold AccountPage.membership_sentence, AccountPage.hasJoinedDiscord.
    cbn [get prop_name and_then]. rewrite Hlength. reflexivity.
Qed.

End AccountPageProperties.


(** ** What a run does not look at *)

Section Blind.

Context `{StringToNumber}.

(** X16. The status of a response is never read: two upstreams that send
    the same bodies (and reject the same requests) drive a run to the same
    completion through the same requests, whatever their status codes. *)
Theorem fetchAllGuildMembers_ignores_status fuel previousMembers lastUserId w w'
    (Henv : process_env w' = process_env w)
    (Hsent : sent w' = sent w)
    (Hbodies : forall history rq,
        option_map body (upstream w' history rq) = option_map body (upstream w history rq)) :
  fst (fetchAllGuildMembers fuel previousMembers lastUserId w')
  = fst (fetchAllGuildMembers fuel previousMembers lastUserId w)
  /\ sent (snd (fetchAllGuildMembers fuel previousMembers lastUserId w'))
     = sent (snd (fetchAllGuildMembers fuel previousMembers lastUserId w)).
Proof.
  revert previousMembers lastUserId w w' Henv Hsent Hbodies.
  induction fuel as [|fuel IH]; intros previousMembers lastUserId w w' Henv Hsent Hbodies.
  - cbn. now split.
  - rewrite !fetchAllGuildMembers_step. cbv zeta. rewrite Henv, Hsent.
    set (rq := chunk_request (process_env w) lastUserId).
    assert (Hstop : forall c : completion string,
               fst (c, log_request rq w') = fst (c, log_request rq w)
               /\ sent (snd (c, log_request rq w')) = sent (snd (c, log_request rq w))).
    { intros c. cbn. now rewrite Hsent. }
    pose proof (Hbodies (sent w) rq) as Hfirst.
    destruct (upstream w' (sent w) rq) as [response'|],
             (upstream w (sent w) rq) as [response|];
      cbn [option_map] in Hfirst; try discriminate; [|apply Hstop].
    injection Hfirst as ->.
    destruct (JSON_parse (body response)) as [newMembers|]; [|apply Hstop].
    unfold continue_with.
    destruct (get (Val newMembers) p_length) as [len| |]; try apply Hstop.
    destruct (above_zero len); [|apply Hstop].
    destruct (spread (Val newMembers)) as [fresh| |]; try apply Hstop.
    destruct (and_then _ _) as [id| |]; try apply Hstop.
    apply IH; cbn [log_request process_env sent upstream];
      [exact Henv | now rewrite Hsent | exact Hbodies].
Qed.

End Blind.

Section Cursors.

Context `{StringToNumber}.

Lemma chunk_request_falsy e cursor :
  truthy cursor = false -> chunk_request e cursor = chunk_request e Undefined.
Proof. intros Hfalsy. unfold chunk_request. now rewrite Hfalsy. Qed.

(** X17. A falsy cursor is no cursor.  When the identifier read off the last
    record is the empty string, the number zero, [null], [false] or missing,
    the next request asks for the first page again and the run goes on as a
    run started without cursor. *)
Theorem fetchAllGuildMembers_falsy_cursor_restarts fuel previousMembers lastUserId w
    (Hfalsy : truthy lastUserId = false) :
  fetchAllGuildMembers fuel previousMembers lastUserId w
  = fetchAllGuildMembers fuel previousMembers Undefined w.
Proof.
  destruct fuel as [|fuel]; [reflexivity|].
  rewrite !fetchAllGuildMembers_step. cbv zeta.
  now rewrite (chunk_request_falsy _ _ Hfalsy).
Qed.

(** X18. A run that returns has stopped at the first body that read as
    exhausted: each of its requests was answered by a body that parsed, and
    the body read as exhausted for the last request and for no other. *)
Theorem fetchAllGuildMembers_stops_at_first_exhausted
    fuel previousMembers lastUserId w text i rq
    (Hrun : fst (fetchAllGuildMembers fuel previousMembers lastUserId w) = Normal text)
    (Hnew : (List.length (sent w) <= i)%nat)
    (Hrequest : sent (snd (fetchAllGuildMembers fuel previousMembers lastUserId w)) !! i
                = Some rq) :
  exists response v,
    upstream w (take i (sent (snd (fetchAllGuildMembers fuel previousMembers lastUserId w))))
      rq = Some response
    /\ JSON_parse (body response) = Some v
    /\ (reads_as_exhausted v = true
        <-> S i = List.length
                    (sent (snd (fetchAllGuildMembers fuel previousMembers lastUserId w)))).
Proof.
  destruct (fetchAllGuildMembers_resume _ _ _ _ _ _ Hnew Hrequest)
    as (fuel' & accumulated & cursor & w1 & Hresume & -> & Hsent & Hupstream).
  pose proof (lookup_lt_Some _ _ _ Hrequest) as Hlt.
  assert (Hi : List.length (sent w1) = i) by (rewrite Hsent, length_take; lia).
  rewrite <- Hsent, <- Hupstream. rewrite Hresume in *. clear Hresume Hsent.
  rewrite fetchAllGuildMembers_step in *. cbv zeta in *.
  destruct (upstream w1 (sent w1) _) as [response|] eqn:Hresponse; [|discriminate].
  destruct (JSON_parse (body response)) as [v|] eqn:Hbody; [|discriminate].
  exists response, v. split; [reflexivity|]. split; [exact Hbody|].
  unfold continue_with, reads_as_exhausted in *.
  destruct (get (Val v) p_length) as [len| |]; try discriminate.
  destruct (above_zero len).
  - destruct (spread (Val v)) as [fresh| |]; try discriminate.
    destruct (and_then _ _) as [id| |]; try discriminate.
    split; [discriminate|]. intros Hlast. exfalso.
    destruct fuel' as [|fuel']; [discriminate|].
    destruct (fetchAllGuildMembers_cursors (S fuel') (accumulated ++ fresh) id
                (log_request (chunk_request (process_env w1) cursor) w1))
      as (cursors & Hs & _ & Hfirst).
    destruct (Hfirst ltac:(discriminate)) as (rest & ->).
    rewrite Hs in Hlast. cbn [log_request sent List.map] in Hlast.
    rewrite !length_app in Hlast. cbn [List.length] in Hlast. lia.
  - split; [|reflexivity]. intros _. cbn [snd log_request sent].
    rewrite length_app. cbn [List.length]. lia.
Qed.

(** X19. The configuration is not checked: with [DISCORD_GUILD_ID] and
    [DISCORD_BOT_TOKEN] unset a run still sends its request, to the guild
    [undefined] with the token [undefined]. *)
Theorem fetchAllGuildMembers_unset_configuration fuel previousMembers w
    (Hguild : DISCORD_GUILD_ID (process_env w) = None)
    (Htoken : DISCORD_BOT_TOKEN (process_env w) = None) :
  exists requests,
    sent (snd (fetchAllGuildMembers (S fuel) previousMembers Undefined w))
    = sent w
      ++ {| url := "https://discordapp.com/api/guilds/undefined/members?limit=1000";
            Authorization := "Bot undefined" |} :: requests.
Proof.
  destruct (fetchAllGuildMembers_cursors (S fuel) previousMembers Undefined w)
    as (cursors & Hs & _ & Hfirst).
  destruct (Hfirst ltac:(discriminate)) as (rest & ->).
  exists (List.map (chunk_request (process_env w)) rest). rewrite Hs. cbn [List.map].
  unfold chunk_request at 1. now rewrite Hguild, Htoken.
Qed.

End Cursors.

(** X20. The routine can be resumed.  Called with the members of the first
    pages and the identifier of the last of them, against the paging
    upstream of a roster of canonical records, it fetches only what
    remains, in [ceil_div remaining pageSize + 1] requests, and returns the
    text of the whole roster, as a run from the start does. *)
Theorem fetchAllGuildMembers_resumes `{StringToNumber}
    guild pageSize roster fetched remaining cursor w fuel
    (Hsize : (0 < pageSize)%nat)
    (Hguild : DISCORD_GUILD_ID (process_env w) = Some guild)
    (Hupstream : upstream w = paging_upstream guild pageSize roster)
    (Hroster : snowflake_roster roster)
    (Hrecords : Forall (fun m => canonical m = true) roster)
    (Hsplit : roster = fetched ++ remaining)
    (Hcursor : cursor_of fetched cursor)
    (Hfuel : (ceil_div (List.length remaining) pageSize + 1 <= fuel)%nat) :
  exists requests,
    fetchAllGuildMembers fuel fetched cursor w
    = (Normal (JSON_stringify (JArr roster)), log_requests requests w)
    /\ List.length requests = (ceil_div (List.length remaining) pageSize + 1)%nat.
Proof.
  destruct (ceil_div_bounds (List.length remaining) pageSize Hsize) as [Hupper Hlower].
  eexists. split.
  - apply (paging_run guild pageSize roster Hsize Hroster
             (ceil_div (List.length remaining) pageSize) fetched remaining cursor w fuel);
      try assumption. lia.
  - rewrite length_map. cbn [List.length]. rewrite length_page_cursors. lia.
Qed.

(** ** The further properties on concrete inputs *)

Lemma fetchAllGuildMembers_only_sends_page_requests_witness :
  let w' := snd (fetchAllGuildMembers 3 [] (Val (JStr "7")) two_page_world) in
  plain_cursor (Val (JStr "7")) = true
  /\ process_env w' = process_env two_page_world
  /\ upstream w' = upstream two_page_world
  /\ redis w' = redis two_page_world /\ console w' = console two_page_world
  /\ exists requests,
       sent w' = sent two_page_world
                 ++ chunk_request (process_env two_page_world) (Val (JStr "7")) :: requests
       /\ Forall (page_request_of (process_env two_page_world)) requests.
Proof.
  cbv zeta. split; [reflexivity|].
  apply (fetchAllGuildMembers_only_sends_page_requests 2 [] (Val (JStr "7")) two_page_world).
  reflexivity.
Defined.

Lemma fetchAllGuildMembers_never_returns_witness :
  plain_cursor Undefined = true
  /\ never_exhausted (upstream endless_world)
  /\ fst (fetchAllGuildMembers 3 [] Undefined endless_world) = OutOfFuel
  /\ List.length (sent (snd (fetchAllGuildMembers 3 [] Undefined endless_world)))
     = (List.length (sent endless_world) + 3)%nat.
Proof.
  assert (Hupstream : never_exhausted (upstream endless_world)).
  { intros history rq. exists (page_response [member "1"]), [member "1"].
    split; [reflexivity|]. split; [vm_compute; reflexivity|]. split; [discriminate|].
    repeat constructor. discriminate. }
  split; [reflexivity|]. split; [exact Hupstream|].
  apply (fetchAllGuildMembers_never_returns 3 [] Undefined endless_world eq_refl Hupstream).
Defined.

Lemma fetchAllGuildMembers_rejected_request_aborts_witness :
  let run := fetchAllGuildMembers 5 [] Undefined rejecting_world in
  let rq := chunk_request example_env (Val (JStr "1")) in
  (List.length (sent rejecting_world) <= 1)%nat
  /\ sent (snd run) !! 1%nat = Some rq
  /\ upstream rejecting_world (take 1 (sent (snd run))) rq = None
  /\ fst run = Throw NetworkError.
Proof.
  cbv zeta. split; [cbn; lia|]. split; [vm_compute; reflexivity|].
  split; [vm_compute; reflexivity|].
  apply (fetchAllGuildMembers_rejected_request_aborts 5 [] Undefined rejecting_world 1
           (chunk_request example_env (Val (JStr "1"))));
    [cbn; lia | vm_compute; reflexivity | vm_compute; reflexivity].
Defined.


Lemma fetchAllGuildMembers_returns_an_array_witness :
  fst (fetchAllGuildMembers 5 [] Undefined two_page_world)
  = Normal (JSON_stringify (JArr [member "1"; member "2"]))
  /\ exists extra,
       JSON_stringify (JArr [member "1"; member "2"]) = JSON_stringify (JArr ([] ++ extra))
       /\ JSON_parse (JSON_stringify (JArr [member "1"; member "2"]))
          = Some (JArr ([] ++ extra)).
Proof.
  split; [vm_compute; reflexivity|].
  apply (fetchAllGuildMembers_returns_an_array 5 [] Undefined two_page_world).
  vm_compute. reflexivity.
Defined.

Lemma isMemberOfGuild_strict_on_user_objects_witness :
  redis numeric_id_world !! "discordGuildMembers"
  = Some (JSON_stringify (JArr [numbered_record; member "U1"]))
  /\ Forall has_user [numbered_record; member "U1"]
  /\ exists answer,
       fst (isMemberOfGuild "5" numeric_id_world) = Normal answer
       /\ (answer = true
           <-> exists m, m ∈ [numbered_record; member "U1"] /\ user_id m = Some "5"%string).
Proof.
  assert (Hrecords : Forall has_user [numbered_record; member "U1"]).
  { repeat constructor; eexists; reflexivity. }
  split; [apply lookup_insert_eq|]. split; [exact Hrecords|].
  apply (isMemberOfGuild_strict_on_user_objects numeric_id_world
           [numbered_record; member "U1"] "5");
    [apply lookup_insert_eq | exact Hrecords].
Defined.

Lemma isMemberOfGuild_stops_at_first_match_witness :
  redis mixed_snapshot_world !! "discordGuildMembers"
  = Some (JSON_stringify (JArr ([numbered_record; member "U1"] ++ [JNull])))
  /\ Forall has_user [numbered_record; member "U1"]
  /\ existsb (has_id "U1") [numbered_record; member "U1"] = true
  /\ fst (isMemberOfGuild "U1" mixed_snapshot_world) = Normal true.
Proof.
  assert (Hrecords : Forall has_user [numbered_record; member "U1"]).
  { repeat constructor; eexists; reflexivity. }
  split; [apply lookup_insert_eq|]. split; [exact Hrecords|]. split; [reflexivity|].
  apply (isMemberOfGuild_stops_at_first_match mixed_snapshot_world
           [numbered_record; member "U1"] [JNull] "U1");
    [apply lookup_insert_eq | exact Hrecords | reflexivity].
Defined.

Lemma isMemberOfGuild_fails_on_unreadable_entry_witness :
  redis null_first_world !! "discordGuildMembers"
  = Some (JSON_stringify (JArr ([member "U2"] ++ JNull :: [member "U1"])))
  /\ Forall has_user [member "U2"]
  /\ existsb (has_id "U1") [member "U2"] = false
  /\ unreadable JNull
  /\ fst (isMemberOfGuild "U1" null_first_world) = Throw TypeError.
Proof.
  assert (Hrecords : Forall has_user [member "U2"]).
  { repeat constructor; eexists; reflexivity. }
  split; [apply lookup_insert_eq|]. split; [exact Hrecords|]. split; [reflexivity|].
  split; [reflexivity|].
  apply (isMemberOfGuild_fails_on_unreadable_entry null_first_world
           [member "U2"] JNull [member "U1"] "U1");
    [apply lookup_insert_eq | exact Hrecords | reflexivity | reflexivity].
Defined.

Lemma isMemberOfGuild_malformed_snapshot_witness :
  redis garbled_world !! "discordGuildMembers" = Some "[{"%string
  /\ "[{"%string <> ""%string
  /\ JSON_wellformed "[{" = false
  /\ isMemberOfGuild "U1" garbled_world = (Throw SyntaxError, garbled_world).
Proof.
  split; [apply lookup_insert_eq|]. split; [discriminate|]. split; [vm_compute; reflexivity|].
  apply (isMemberOfGuild_malformed_snapshot garbled_world "[{" "U1");
    [apply lookup_insert_eq | discriminate | vm_compute; reflexivity].
Defined.

Lemma isMemberOfGuild_needs_an_array_witness :
  let stored := JSON_stringify (JObj [("members", JArr [member "U1"])]) in
  redis object_snapshot_world !! "discordGuildMembers" = Some stored
  /\ (stored = ""%string
      \/ exists v, JSON_parse stored = Some v /\ forall items, v <> JArr items)
  /\ fst (isMemberOfGuild "U1" object_snapshot_world) = Throw TypeError.
Proof.
  cbv zeta.
  assert (Hkind : JSON_stringify (JObj [("members", JArr [member "U1"])]) = ""%string
                  \/ exists v,
                       JSON_parse (JSON_stringify (JObj [("members", JArr [member "U1"])]))
                       = Some v
                       /\ forall items, v <> JArr items).
  { right. eexists. split; [apply JSON_parse_stringify | discriminate]. }
  split; [apply lookup_insert_eq|]. split; [exact Hkind|].
  apply (isMemberOfGuild_needs_an_array object_snapshot_world
           (JSON_stringify (JObj [("members", JArr [member "U1"])])) "U1");
    [apply lookup_insert_eq | exact Hkind].
Defined.

Lemma isMemberOfGuild_prints_the_roster_witness :
  redis U1_world !! "discordGuildMembers" = Some (JSON_stringify (JArr [member "U1"]))
  /\ snd (isMemberOfGuild "U2" U1_world)
     = log_console
         [Val (JArr [member "U1"]); Val (JStr (JSON_stringify (JArr [member "U1"])))]
         U1_world
  /\ sent (snd (isMemberOfGuild "U2" U1_world)) = sent U1_world
  /\ List.length (console (snd (isMemberOfGuild "U2" U1_world)))
     = S (List.length (console U1_world)).
Proof.
  split; [apply lookup_insert_eq|].
  apply (isMemberOfGuild_prints_the_roster U1_world [member "U1"] "U2").
  apply lookup_insert_eq.
Defined.

Lemma fetch_persist_lookup_witness :
  let run := fetchAllGuildMembers 5 [] Undefined two_page_world in
  let snapshot := JSON_stringify (JArr [member "1"; member "2"]) in
  plain_cursor Undefined = true
  /\ serves_GuildMember_pages (upstream two_page_world)
  /\ Forall GuildMember []
  /\ fst run = Normal snapshot
  /\ exists requests,
       sent (snd run) = sent two_page_world ++ requests
       /\ forall userId,
            fst (isMemberOfGuild userId (persist snapshot (snd run)))
            = Normal (existsb (has_id userId)
                        ([] ++ served (upstream two_page_world) (sent two_page_world)
                                 requests)).
Proof.
  cbv zeta.
  assert (Hupstream : serves_GuildMember_pages (upstream two_page_world)).
  { apply scripted_pages_serve_GuildMembers. repeat constructor; discriminate. }
  split; [reflexivity|].
  split; [exact Hupstream|]. split; [constructor|]. split; [vm_compute; reflexivity|].
  apply (fetch_persist_lookup 5 [] Undefined two_page_world
           (JSON_stringify (JArr [member "1"; member "2"])) eq_refl Hupstream);
    [constructor | vm_compute; reflexivity].
Defined.

Lemma hasJoinedDiscord_iff_guild_listed_witness :
  Forall (fun g => g <> JNull) [AccountPage.other_guild; AccountPage.shop_guild]
  /\ exists joined,
       AccountPage.hasJoinedDiscord
         (Val (JArr [AccountPage.other_guild; AccountPage.shop_guild])) = Normal joined
       /\ (joined = true
           <-> exists g, g ∈ [AccountPage.other_guild; AccountPage.shop_guild]
                         /\ get (Val g) p_id
                            = Normal (Val (JStr AccountPage.matchingDiscordId))).
Proof.
  assert (Hguilds : Forall (fun g => g <> JNull)
                      [AccountPage.other_guild; AccountPage.shop_guild]).
  { repeat constructor; discriminate. }
  split; [exact Hguilds|].
  apply (hasJoinedDiscord_iff_guild_listed
           [AccountPage.other_guild; AccountPage.shop_guild] Hguilds).
Defined.

Lemma account_page_takes_an_error_for_no_witness :
  let fields := [("message", JStr "401: Unauthorized"); ("code", JNum 0)] in
  upstream refused_world (sent refused_world) (AccountPage.guilds_request None)
  = Some AccountPage.unauthorized
  /\ JSON_parse (body AccountPage.unauthorized) = Some (JObj fields)
  /\ own_property "length" fields = Undefined
  /\ fst (AccountPage.loader tt None refused_world)
     = Normal {| AccountPage.user := tt;
                 AccountPage.discordProfile := None;
                 AccountPage.result := Val (JObj fields) |}
  /\ AccountPage.membership_sentence (Val (JObj fields))
     = Normal "You are not a member of our Discord"%string.
Proof.
  cbv zeta. split; [reflexivity|]. split; [vm_compute; reflexivity|].
  split; [reflexivity|].
  apply (account_page_takes_an_error_for_no tt None refused_world AccountPage.unauthorized
           [("message", JStr "401: Unauthorized"); ("code", JNum 0)]);
    [reflexivity | vm_compute; reflexivity | reflexivity].
Defined.

Lemma fetchAllGuildMembers_ignores_status_witness :
  process_env relabelled_world = process_env throttled_world
  /\ sent relabelled_world = sent throttled_world
  /\ (forall history rq,
        option_map body (upstream relabelled_world history rq)
        = option_map body (upstream throttled_world history rq))
  /\ fst (fetchAllGuildMembers 5 [] Undefined relabelled_world)
     = fst (fetchAllGuildMembers 5 [] Undefined throttled_world)
  /\ sent (snd (fetchAllGuildMembers 5 [] Undefined relabelled_world))
     = sent (snd (fetchAllGuildMembers 5 [] Undefined throttled_world)).
Proof.
  assert (Hbodies : forall history rq,
             option_map body (upstream relabelled_world history rq)
             = option_map body (upstream throttled_world history rq)).
  { intros history rq. cbn [relabelled_world throttled_world initial_world upstream].
    unfold scripted. destruct (List.length history) as [|[|[|n]]]; reflexivity. }
  split; [reflexivity|]. split; [reflexivity|]. split; [exact Hbodies|].
  apply (fetchAllGuildMembers_ignores_status 5 [] Undefined throttled_world relabelled_world);
    [reflexivity | reflexivity | exact Hbodies].
Defined.

Lemma fetchAllGuildMembers_falsy_cursor_restarts_witness :
  truthy (Val (JStr "")) = false
  /\ fetchAllGuildMembers 5 [member "0"] (Val (JStr "")) two_page_world
     = fetchAllGuildMembers 5 [member "0"] Undefined two_page_world.
Proof.
  split; [reflexivity|].
  apply (fetchAllGuildMembers_falsy_cursor_restarts 5 [member "0"] (Val (JStr ""))
           two_page_world).
  reflexivity.
Defined.

Lemma fetchAllGuildMembers_stops_at_first_exhausted_witness :
  let run := fetchAllGuildMembers 5 [] Undefined two_page_world in
  let rq := chunk_request example_env (Val (JStr "2")) in
  fst run = Normal (JSON_stringify (JArr [member "1"; member "2"]))
  /\ (List.length (sent two_page_world) <= 1)%nat
  /\ sent (snd run) !! 1%nat = Some rq
  /\ exists response v,
       upstream two_page_world (take 1 (sent (snd run))) rq = Some response
       /\ JSON_parse (body response) = Some v
       /\ (reads_as_exhausted v = true <-> 2%nat = List.length (sent (snd run))).
Proof.
  cbv zeta. split; [vm_compute; reflexivity|]. split; [cbn; lia|].
  split; [vm_compute; reflexivity|].
  apply (fetchAllGuildMembers_stops_at_first_exhausted 5 [] Undefined two_page_world
           (JSON_stringify (JArr [member "1"; member "2"])) 1
           (chunk_request example_env (Val (JStr "2"))));
    [vm_compute; reflexivity | cbn; lia | vm_compute; reflexivity].
Defined.

Lemma fetchAllGuildMembers_unset_configuration_witness :
  DISCORD_GUILD_ID (process_env unconfigured_world) = None
  /\ DISCORD_BOT_TOKEN (process_env unconfigured_world) = None
  /\ exists requests,
       sent (snd (fetchAllGuildMembers 1 [] Undefined unconfigured_world))
       = sent unconfigured_world
         ++ {| url := "https://discordapp.com/api/guilds/undefined/members?limit=1000";
               Authorization := "Bot undefined" |} :: requests.
Proof.
  split; [reflexivity|]. split; [reflexivity|].
  apply (fetchAllGuildMembers_unset_configuration 0 [] unconfigured_world); reflexivity.
Defined.

Lemma fetchAllGuildMembers_resumes_witness :
  let w := initial_world example_env (paging_upstream "G" 2 (numbered_roster 3)) in
  (0 < 2)%nat
  /\ DISCORD_GUILD_ID (process_env w) = Some "G"%string
  /\ upstream w = paging_upstream "G" 2 (numbered_roster 3)
  /\ snowflake_roster (numbered_roster 3)
  /\ Forall (fun m => canonical m = true) (numbered_roster 3)
  /\ numbered_roster 3 = [member "1"; member "2"] ++ [member "3"]
  /\ cursor_of [member "1"; member "2"] (Val (JStr "2"))
  /\ (ceil_div (List.length [member "3"]) 2 + 1 <= 2)%nat
  /\ exists requests,
       fetchAllGuildMembers 2 [member "1"; member "2"] (Val (JStr "2")) w
       = (Normal (JSON_stringify (JArr (numbered_roster 3))), log_requests requests w)
       /\ List.length requests = (ceil_div (List.length [member "3"]) 2 + 1)%nat.
Proof.
  cbv zeta.
  assert (Hcursor : cursor_of [member "1"; member "2"] (Val (JStr "2"))).
  { exists "2"%string. split; reflexivity. }
  split; [lia|]. split; [reflexivity|]. split; [reflexivity|].
  split; [apply numbered_roster_snowflakes|].
  split; [apply numbered_roster_canonical|]. split; [reflexivity|].
  split; [exact Hcursor|]. split; [vm_compute; lia|].
  apply (fetchAllGuildMembers_resumes "G" 2 (numbered_roster 3)
           [member "1"; member "2"] [member "3"] (Val (JStr "2"))
           (initial_world example_env (paging_upstream "G" 2 (numbered_roster 3))) 2);
    [lia | reflexivity | reflexivity | apply numbered_roster_snowflakes
    | apply numbered_roster_canonical | reflexivity | exact Hcursor | vm_compute; lia].
Defined.
